(** * ArrayList: a shallow embedding of [ArrayList.c] and its verification

    The C code is a growable array of [void *] handles.  The embedding keeps
    the three fields of [struct ArrayList], models the backing buffer as the
    list of slots the allocator really handed out, writes the [size_t]
    arithmetic with its wrap-around, and threads the process state
    ([stderr], the allocator) through every call.  A call either returns,
    terminates the process ([exit(EXIT_FAILURE)]) or touches memory outside
    the buffer (undefined behaviour). *)

From stdpp Require Import base numbers list pretty.
From Stdlib Require Import ZArith String Ascii Lia.

Local Open Scope Z_scope.

(** ** Machine integers (LP64: [size_t] and pointers are 64 bits wide) *)

Definition SIZE_MAX : Z := 2 ^ 64 - 1.
Definition PTRDIFF_MAX : Z := 2 ^ 63 - 1.

(** Arithmetic on [size_t] is arithmetic modulo [2^64]. *)
Definition size_t (z : Z) : Z := z mod 2 ^ 64.

(** The conversion [(ssize_t)i] of a [size_t] value. *)
Definition ssize_t (z : Z) : Z := if z <? 2 ^ 63 then z else z - 2 ^ 64.

Definition is_size_t (z : Z) : Prop := 0 <= z <= SIZE_MAX.

(** The sizes of a pointer and of [struct ArrayList], in bytes. *)
Definition sizeof_ptr : Z := 8.
Definition sizeof_ArrayList : Z := 24.

(** Element handles are the values of [void *]; [NULL] is the zero address. *)
Abbreviation handle := Z.
Definition NULL : handle := 0.

(** ** The container *)

(** [struct ArrayList]: [arr] is the buffer behind the pointer (one entry per
    allocated slot), [n] the number of elements, [length] the capacity. *)
Record ArrayList : Type := mkArrayList {
  arr : list handle;
  n : Z;
  length : Z
}.

(** The rest of the process: what was printed on [stderr] and how many
    requests the allocator has served. *)
Record env : Type := mkEnv {
  stderr : list string;
  allocs : nat
}.

(** A process that holds one list. *)
Record machine : Type := mkMachine {
  obj : ArrayList;
  sys : env
}.

(** ** Outcomes and the monad of C statements *)

Inductive outcome (S A : Type) : Type :=
| Ret (a : A) (s : S)      (* normal return *)
| Exit (s : S)             (* the process ended in [exit(EXIT_FAILURE)] *)
| Undef.                   (* undefined behaviour *)

Arguments Ret {S A} a s.
Arguments Exit {S A} s.
Arguments Undef {S A}.

Definition M (S A : Type) : Type := S -> outcome S A.

Definition ret {S A : Type} (a : A) : M S A := fun s => Ret a s.

Definition bind {S A B : Type} (c : M S A) (k : A -> M S B) : M S B :=
  fun s =>
    match c s with
    | Ret a s' => k a s'
    | Exit s' => Exit s'
    | Undef => Undef
    end.

Definition undef {S A : Type} : M S A := fun _ => Undef.

Declare Scope c_scope.
Delimit Scope c_scope with C.
Notation "'do' x <- c ; k" := (bind c (fun x => k))
  (at level 10, x name, c at level 100, k at level 200) : c_scope.
Notation "'run' c ; k" := (bind c (fun _ => k))
  (at level 10, c at level 100, k at level 200) : c_scope.
Local Open Scope c_scope.

(** Statements of the process act on the machine that holds the list. *)
Definition lift {A : Type} (c : M env A) : M machine A :=
  fun m =>
    match c (sys m) with
    | Ret a e => Ret a (mkMachine (obj m) e)
    | Exit e => Exit (mkMachine (obj m) e)
    | Undef => Undef
    end.

(** ** [stderr] and [exit] *)

Definition newline : string := String (ascii_of_nat 10) EmptyString.

Definition fprintf_stderr (line : string) : M env unit :=
  fun e => Ret tt (mkEnv (stderr e ++ [line]) (allocs e)).

Definition exit_failure {A : Type} : M env A := fun e => Exit e.

(** [#define THROW_ERROR(msg) fprintf(stderr, "[ERROR] %s in function: %s\n",
    msg, __func__), exit(EXIT_FAILURE)] *)
Definition error_line (msg func : string) : string :=
  ("[ERROR] " ++ msg ++ " in function: " ++ func ++ newline)%string.

Definition THROW_ERROR {A : Type} (msg func : string) : M env A :=
  run fprintf_stderr (error_line msg func);
  exit_failure.

(** ** The allocator

    Whether a request is granted and what a fresh slot contains is not decided
    by the program: both are parameters.  [grant k b] tells whether the
    [k]-th request, for [b] bytes, succeeds; [junk k i] is the indeterminate
    content of slot [i] of the block handed out by request [k]. *)

Section ArrayList.

Variable grant : nat -> Z -> bool.
Variable junk : nat -> nat -> handle.

(** A request of zero bytes is left to the allocator like any other: a
    granted one yields a block without slots. *)
Definition request (bytes : Z) : M env (option nat) :=
  fun e =>
    Ret (if grant (allocs e) bytes then Some (allocs e) else None)
        (mkEnv (stderr e) (S (allocs e))).

(** [malloc(bytes)] for the list header: only success matters. *)
Definition malloc (bytes : Z) : M env bool :=
  do r <- request bytes;
  ret (match r with Some _ => true | None => false end).

(** [calloc(nmemb, size)]: fails when [nmemb * size] does not fit [size_t],
    otherwise asks for that many bytes and zeroes them. *)
Definition calloc (nmemb size : Z) : M env (option (list handle)) :=
  if SIZE_MAX <? nmemb * size then ret None
  else
    do r <- request (nmemb * size);
    ret (match r with
         | Some _ => Some (replicate (Z.to_nat (nmemb * size / sizeof_ptr)) NULL)
         | None => None
         end).

(** [realloc(p, bytes)]: the new block has [bytes / 8] slots; the
    slots common to the old and the new block keep their contents, the others
    are indeterminate. *)
Definition resized (k : nat) (p : list handle) (slots : nat) : list handle :=
  take slots p ++ map (junk k) (seq (List.length p) (slots - List.length p)).

Definition realloc (p : list handle) (bytes : Z) : M env (option (list handle)) :=
  do r <- request bytes;
  ret (match r with
       | Some k => Some (resized k p (Z.to_nat (bytes / sizeof_ptr)))
       | None => None
       end).

(** ** Access to the list *)

Definition get : M machine ArrayList := fun m => Ret (obj m) m.

Definition set_arr (a : list handle) : M machine unit :=
  fun m => Ret tt (mkMachine (mkArrayList a (n (obj m)) (length (obj m))) (sys m)).

Definition set_n (v : Z) : M machine unit :=
  fun m => Ret tt (mkMachine (mkArrayList (arr (obj m)) v (length (obj m))) (sys m)).

Definition set_length (v : Z) : M machine unit :=
  fun m => Ret tt (mkMachine (mkArrayList (arr (obj m)) (n (obj m)) v) (sys m)).

Definition in_buffer (a : list handle) (i : Z) : bool :=
  (0 <=? i) && (i <? Z.of_nat (List.length a)).

(** [list->arr[i]] as an rvalue. *)
Definition load (i : Z) : M machine handle :=
  fun m =>
    if in_buffer (arr (obj m)) i
    then match arr (obj m) !! Z.to_nat i with
         | Some v => Ret v m
         | None => Undef
         end
    else Undef.

(** [list->arr[i] = v]. *)
Definition store (i : Z) (v : handle) : M machine unit :=
  fun m =>
    if in_buffer (arr (obj m)) i
    then set_arr (<[Z.to_nat i := v]> (arr (obj m))) m
    else Undef.

(** [memmove(&list->arr[dst], &list->arr[src], bytes)]: both ranges must lie
    inside the buffer; the source range is read before anything is written. *)
Definition memmove (dst src bytes : Z) : M machine unit :=
  fun m =>
    let a := arr (obj m) in
    let cnt := bytes / sizeof_ptr in
    if (0 <=? src) && (0 <=? dst)
       && (src + cnt <=? Z.of_nat (List.length a))
       && (dst + cnt <=? Z.of_nat (List.length a))
    then set_arr (take (Z.to_nat dst) a
                  ++ take (Z.to_nat cnt) (drop (Z.to_nat src) a)
                  ++ drop (Z.to_nat (dst + cnt)) a) m
    else Undef.

(** ** The functions of [ArrayList.c] *)

Definition init (length : Z) : M env ArrayList :=
  do list <- malloc sizeof_ArrayList;
  if negb list then THROW_ERROR "out of memory" "init"
  else
    do a <- calloc (size_t (length + 1)) sizeof_ptr;
    match a with
    | None => (* free(list) *) THROW_ERROR "out of memory" "init"
    | Some a =>
        (* list->n = 0; list->length = length; list->arr[list->n] = NULL *)
        if in_buffer a 0
        then ret (mkArrayList (<[Z.to_nat 0 := NULL]> a) 0 length)
        else undef
    end.

Definition resize (size : Z) : M machine unit :=
  do l <- get;
  if size <=? n l then ret tt
  else
    do newArr <- lift (realloc (arr l) (size_t ((size + 1) * sizeof_ptr)));
    match newArr with
    | None => lift (THROW_ERROR "out of memory" "resize")
    | Some a =>
        run set_arr a;
        set_length size
    end.

Definition push_back (element : handle) : M machine unit :=
  do l <- get;
  run (if n l =? length l
       then resize (size_t (length l * 2 + 1))
       else ret tt);
  do l <- get;
  run store (n l) element;
  run set_n (size_t (n l + 1));
  do l <- get;
  store (n l) NULL.

Definition pop_back : M machine unit :=
  do l <- get;
  if n l =? 0
  then lift (fprintf_stderr (error_line "Empty list" "pop_back"))
  else
    run set_n (size_t (n l - 1));
    do l <- get;
    store (n l) NULL.

Definition shrink_to_fit : M machine unit :=
  do l <- get;
  if n l =? length l then ret tt
  else
    do newArr <- lift (realloc (arr l) (size_t ((n l + 1) * sizeof_ptr)));
    match newArr with
    | None => lift (THROW_ERROR "out of memory" "shrink_to_fit")
    | Some a =>
        run set_arr a;
        do l <- get;
        set_length (n l)
    end.

Definition get_length : M machine Z :=
  do l <- get; ret (length l).

Definition get_number_of_elements : M machine Z :=
  do l <- get; ret (n l).

Definition insert_at (element : handle) (index : Z) : M machine unit :=
  do l <- get;
  if n l <? index
  then lift (THROW_ERROR "Index out of range" "insert_at")
  else
    run (if n l =? length l
         then resize (size_t (length l * 2 + 1))
         else ret tt);
    do l <- get;
    run memmove (size_t (index + 1)) index (size_t (size_t (n l - index) * sizeof_ptr));
    run store index element;
    run set_n (size_t (n l + 1));
    do l <- get;
    store (n l) NULL.

(** The two halves of [push_back] and [insert_at], named for the proofs:
    the growth step they share, and what each does once there is room. *)

(** The growth step shared by [push_back] and [insert_at]. *)
Definition grow : M machine unit :=
  do l <- get;
  if n l =? length l then resize (size_t (length l * 2 + 1)) else ret tt.

(** What [push_back] does once there is room. *)
Definition append_slot (element : handle) : M machine unit :=
  do l <- get;
  run store (n l) element;
  run set_n (size_t (n l + 1));
  do l <- get;
  store (n l) NULL.

(** What [insert_at] does once the index is checked and there is room. *)
Definition insert_slot (element : handle) (index : Z) : M machine unit :=
  do l <- get;
  run memmove (size_t (index + 1)) index (size_t (size_t (n l - index) * sizeof_ptr));
  run store index element;
  run set_n (size_t (n l + 1));
  do l <- get;
  store (n l) NULL.

(** The loop [for (i = index; i < list->n - 1; i++) arr[i] = arr[i + 1]]:
    neither [list->n] nor the bound changes in the body, so the loop makes
    [list->n - 1 - index] rounds. *)
Fixpoint shift_left (rounds : nat) (i : Z) : M machine unit :=
  match rounds with
  | O => ret tt
  | S rounds' =>
      do v <- load (size_t (i + 1));
      run store i v;
      shift_left rounds' (size_t (i + 1))
  end.

Definition remove_at (index : Z) : M machine unit :=
  do l <- get;
  if n l <=? index
  then lift (THROW_ERROR "Index out of range" "remove_at")
  else
    run shift_left (Z.to_nat (size_t (n l - 1) - index)) index;
    do l <- get;
    run set_n (size_t (n l - 1));
    do l <- get;
    store (n l) NULL.

(** The loop of [find]: [rounds] is the number of indices left below
    [list->n]. *)
Fixpoint find_from (cmp : handle -> handle -> Z) (element : handle)
    (rounds : nat) (i : Z) : M machine Z :=
  match rounds with
  | O => ret (-1)
  | S rounds' =>
      do v <- load i;
      if cmp v element =? 0 then ret (ssize_t i)
      else find_from cmp element rounds' (size_t (i + 1))
  end.

Definition find (element : handle) (cmp : handle -> handle -> Z) : M machine Z :=
  do l <- get;
  find_from cmp element (Z.to_nat (n l)) 0.

(** ** Sequences of calls *)

Inductive op : Type :=
| PushBack (element : handle)
| PopBack
| InsertAt (element : handle) (index : Z)
| RemoveAt (index : Z)
| Resize (size : Z)
| ShrinkToFit.

Definition call (o : op) : M machine unit :=
  match o with
  | PushBack x => push_back x
  | PopBack => pop_back
  | InsertAt x i => insert_at x i
  | RemoveAt i => remove_at i
  | Resize s => resize s
  | ShrinkToFit => shrink_to_fit
  end.

(** Arguments of type [size_t] are in range. *)
Definition args_ok (o : op) : Prop :=
  match o with
  | InsertAt _ i => is_size_t i
  | RemoveAt i => is_size_t i
  | Resize s => is_size_t s
  | _ => True
  end.

(** The states a program can observe: the one [init] returns, and every
    state a call returns from an observable state. *)
Inductive reachable_by (ok : op -> Prop) : machine -> Prop :=
| reach_init (length : Z) (e e' : env) (l : ArrayList) :
    is_size_t length ->
    init length e = Ret l e' ->
    reachable_by ok (mkMachine l e')
| reach_call (o : op) (m m' : machine) :
    reachable_by ok m ->
    ok o ->
    call o m = Ret tt m' ->
    reachable_by ok m'.

Definition reachable : machine -> Prop := reachable_by args_ok.

(** Arguments for which the byte count of the buffer [resize] asks for fits
    [size_t]. *)
Definition args_in_range (o : op) : Prop :=
  match o with
  | Resize s => is_size_t s /\ (s + 1) * sizeof_ptr <= SIZE_MAX
  | _ => args_ok o
  end.

(** A program in the shape of [main]: create a list, run calls on it, hand
    the list back. *)
Definition program (length : Z) (body : M machine unit) : M env ArrayList :=
  do l <- init length;
  fun e =>
    match body (mkMachine l e) with
    | Ret _ m => Ret (obj m) (sys m)
    | Exit m => Exit (sys m)
    | Undef => Undef
    end.

Fixpoint push_all (xs : list handle) : M machine unit :=
  match xs with
  | [] => ret tt
  | x :: xs' => run push_back x; push_all xs'
  end.

End ArrayList.

(** ** The abstract view of a list *)

(** The stored elements: slots [0 .. n-1] of the buffer. *)
Definition elements (l : ArrayList) : list handle :=
  take (Z.to_nat (n l)) (arr l).

(** The slot behind the last element holds [NULL]. *)
Definition sentinel (l : ArrayList) : Prop :=
  arr l !! Z.to_nat (n l) = Some NULL.

(** The buffer has one slot more than the capacity. *)
Definition terminated_buffer (l : ArrayList) : Prop :=
  Z.of_nat (List.length (arr l)) = length l + 1.

(** The representation invariant: the count is within the capacity, the
    buffer has one slot more than the capacity, and it is a block the
    allocator can hand out (no object exceeds [PTRDIFF_MAX] bytes). *)
Definition wf (l : ArrayList) : Prop :=
  0 <= n l <= length l
  /\ terminated_buffer l
  /\ (length l + 1) * sizeof_ptr <= PTRDIFF_MAX.

(** A list with room for one more element. *)
Definition roomy (l : ArrayList) : Prop :=
  0 <= n l < length l
  /\ terminated_buffer l
  /\ (length l + 1) * sizeof_ptr <= SIZE_MAX.

(** The request [grow] sends to the allocator when the list is full. *)
Definition growth_request (l : ArrayList) : Z := (length l * 2 + 2) * sizeof_ptr.

(** The list is full and the allocator refuses the request of [grow]. *)
Definition starved (grant : nat -> Z -> bool) (m : machine) : Prop :=
  n (obj m) = length (obj m)
  /\ grant (allocs (sys m)) (growth_request (obj m)) = false.

(** The capacity after the growth step. *)
Definition grown_length (l : ArrayList) : Z :=
  if n l =? length l then length l * 2 + 1 else length l.

(** The buffer after [insert_at]: slots [i .. c-1] moved one to the right,
    [x] written at [i], the terminator written at [c+1]. *)
Definition shift_right (a : list handle) (i c : nat) (x : handle) : list handle :=
  <[S c := NULL]> (<[i := x]> (take (S i) a ++ take (c - i) (drop i a) ++ drop (S c) a)).

(** The buffer after [remove_at]: slots [i+1 .. c-1] moved one to the left,
    the terminator written at [c-1]. *)
Definition shift_left_buffer (a : list handle) (i c : nat) : list handle :=
  <[pred c := NULL]> (take i a ++ take (pred c - i) (drop (S i) a) ++ drop (pred c) a).

(** What every call preserves, whatever state the list is in: the count is
    within the capacity, and the buffer is a block of at most [SIZE_MAX]
    bytes. *)
Definition count_inv (l : ArrayList) : Prop :=
  0 <= n l <= length l
  /\ length l <= SIZE_MAX
  /\ Z.of_nat (List.length (arr l)) * sizeof_ptr <= SIZE_MAX.

(** Calls that leave buffer size, count and capacity alone. *)
Definition same_frame (l l' : ArrayList) : Prop :=
  List.length (arr l') = List.length (arr l) /\ n l' = n l /\ length l' = length l.

(** The three conditions the list reports, and the line each one leaves on
    [stderr].  The first two end the process; the third does not. *)
Inductive error : Type := OutOfMemory | IndexOutOfRange | EmptyContainer.

Definition message (err : error) : string :=
  match err with
  | OutOfMemory => "out of memory"
  | IndexOutOfRange => "Index out of range"
  | EmptyContainer => "Empty list"
  end.

Definition report (err : error) (func : string) : string :=
  error_line (message err) func.

#[global] Instance sentinel_dec l : Decision (sentinel l).
Proof. unfold sentinel. apply _. Defined.

#[global] Instance wf_dec l : Decision (wf l).
Proof. unfold wf, terminated_buffer. apply _. Defined.

(** An allocator that respects the limit on object sizes. *)
Definition bounded (grant : nat -> Z -> bool) : Prop :=
  forall k b, grant k b = true -> b <= PTRDIFF_MAX.

(** A concrete allocator that grants whatever such an allocator can, and
    fills fresh slots with a recognisable pattern. *)
Definition grant_all : nat -> Z -> bool := fun _ b => b <=? PTRDIFF_MAX.
Definition junk_pattern : nat -> nat -> handle := fun _ _ => 3735928559.

(** A fresh process, and the process once [init] has made its two
    requests. *)
Definition env0 : env := mkEnv [] 0.
Definition env2 : env := mkEnv [] 2.

(** Three lists in range: the one of [main] ([init(5)] and three
    [push_back]), a full one ([init(2)] and two [push_back]) and an empty one
    ([init(2)]). *)
Definition list_with_room : machine :=
  mkMachine (mkArrayList [10; 20; 30; NULL; NULL; NULL] 3 5) env2.
Definition list_full : machine :=
  mkMachine (mkArrayList [10; 20; NULL] 2 2) env2.
Definition list_empty : machine :=
  mkMachine (mkArrayList [NULL; NULL; NULL] 0 2) env2.

(** ** Searching a list of handles *)

(** The position of the first handle the comparator reports equal to the
    target (it returns 0), as a function of the stored elements alone; the
    loop of [find] is compared with it. *)
Fixpoint index_of (cmp : handle -> handle -> Z) (x : handle) (l : list handle)
    : option nat :=
  match l with
  | [] => None
  | v :: l' => if cmp v x =? 0 then Some 0%nat else S <$> index_of cmp x l'
  end.

(** The value [find] returns for a position, or for none. *)
Definition found (r : option nat) : Z :=
  match r with
  | Some i => Z.of_nat i
  | None => -1
  end.

(** The calls that work on the elements, as opposed to the capacity. *)
Definition element_op (o : op) : Prop :=
  match o with
  | Resize _ | ShrinkToFit => False
  | _ => True
  end.


(** ** The demonstration program ([main.c]) and [freeArrayList] *)







Section Main.

Variable grant : nat -> Z -> bool.
Variable junk : nat -> nat -> handle.



End Main.

(** * Verification *)

(** ** Arithmetic and buffer lemmas *)

Lemma size_t_small (z : Z) : is_size_t z -> size_t z = z.
Proof.
  unfold is_size_t, SIZE_MAX, size_t. intros H. apply Z.mod_small. lia.
Qed.

Lemma size_t_range (z : Z) : is_size_t (size_t z).
Proof.
  unfold is_size_t, SIZE_MAX, size_t.
  pose proof (Z.mod_pos_bound z (2 ^ 64)). lia.
Qed.

Lemma in_buffer_true (a : list handle) (i : Z) :
  0 <= i < Z.of_nat (List.length a) -> in_buffer a i = true.
Proof.
  unfold in_buffer. intros H.
  apply andb_true_intro. split; [apply Z.leb_le | apply Z.ltb_lt]; lia.
Qed.

Lemma in_buffer_inv (a : list handle) (i : Z) :
  in_buffer a i = true -> 0 <= i < Z.of_nat (List.length a).
Proof.
  unfold in_buffer. intros H. apply andb_prop in H as [H1 H2].
  apply Z.leb_le in H1. apply Z.ltb_lt in H2. lia.
Qed.

Lemma length_resized (junk : nat -> nat -> handle) (k : nat) (p : list handle) (slots : nat) :
  List.length (resized junk k p slots) = slots.
Proof.
  unfold resized. rewrite length_app, length_take, length_map, length_seq. lia.
Qed.

Lemma take_resized (junk : nat -> nat -> handle) (k : nat) (p : list handle) (slots c : nat) :
  (c <= slots)%nat -> (c <= List.length p)%nat ->
  take c (resized junk k p slots) = take c p.
Proof.
  intros Hs Hp. unfold resized.
  rewrite take_app_le by (rewrite length_take; lia).
  rewrite take_take. f_equal. lia.
Qed.

Lemma lookup_resized (junk : nat -> nat -> handle) (k : nat) (p : list handle) (slots i : nat) :
  (i < slots)%nat -> (i < List.length p)%nat ->
  resized junk k p slots !! i = p !! i.
Proof.
  intros Hs Hp. unfold resized.
  rewrite lookup_app_l by (rewrite length_take; lia).
  apply lookup_take_lt. lia.
Qed.

(** ** Symbolic execution *)

Ltac exec :=
  cbv [bind ret get set_n set_arr set_length lift undef obj sys arr n length
       stderr allocs fprintf_stderr exit_failure THROW_ERROR request].

Lemma store_in (i v : Z) (m : machine) :
  0 <= i < Z.of_nat (List.length (arr (obj m))) ->
  store i v m =
  Ret tt (mkMachine (mkArrayList (<[Z.to_nat i := v]> (arr (obj m)))
                                 (n (obj m)) (length (obj m))) (sys m)).
Proof. intros H. unfold store. rewrite in_buffer_true by done. reflexivity. Qed.

Lemma store_inv (i v : Z) (m : machine) (m' : machine) :
  store i v m = Ret tt m' ->
  0 <= i < Z.of_nat (List.length (arr (obj m)))
  /\ m' = mkMachine (mkArrayList (<[Z.to_nat i := v]> (arr (obj m)))
                                 (n (obj m)) (length (obj m))) (sys m).
Proof.
  unfold store. destruct (in_buffer (arr (obj m)) i) eqn:E; [|discriminate].
  exec. intros [= <-]. split; [by apply in_buffer_inv | done].
Qed.

Lemma load_in (i : Z) (m : machine) (v : handle) :
  0 <= i -> arr (obj m) !! Z.to_nat i = Some v -> load i m = Ret v m.
Proof.
  intros Hi Hv. unfold load.
  rewrite in_buffer_true, Hv; [done|].
  apply lookup_lt_Some in Hv. lia.
Qed.

(** ** The buffer after a shift *)

Ltac len :=
  rewrite ?length_insert, ?length_app, ?length_take, ?length_drop;
  cbn [List.length]; try lia.

Lemma length_shift_right (a : list handle) (i c : nat) (x : handle) :
  (i <= c)%nat -> (S c < List.length a)%nat ->
  List.length (shift_right a i c x) = List.length a.
Proof. intros Hi Hc. unfold shift_right. len. Qed.

Lemma take_shift_right (a : list handle) (i c : nat) (x : handle) :
  (i <= c)%nat -> (S c < List.length a)%nat ->
  take (S c) (shift_right a i c x) = take i (take c a) ++ x :: drop i (take c a).
Proof.
  intros Hi Hc. unfold shift_right.
  rewrite take_insert_ge by lia.
  destruct (lookup_lt_is_Some_2 a i) as [y Hy]; [lia|].
  rewrite (take_S_r a i y Hy).
  rewrite insert_app_l by len.
  rewrite insert_app_r_alt by len.
  replace (i - List.length (take i a))%nat with 0%nat by len.
  cbn [list_insert insert].
  rewrite take_take, Nat.min_l by lia.
  replace (drop i (take c a)) with (take (c - i) (drop i a))
    by (rewrite take_drop_commute; do 2 f_equal; lia).
  rewrite <- !app_assoc. cbn [app].
  rewrite take_app_ge by len.
  f_equal. rewrite length_take, Nat.min_l by lia.
  replace (S c - i)%nat with (S (c - i)) by lia. cbn [take]. f_equal.
  rewrite take_app_le by len. rewrite take_take. f_equal. lia.
Qed.

Lemma lookup_shift_right_end (a : list handle) (i c : nat) (x : handle) :
  (i <= c)%nat -> (S c < List.length a)%nat ->
  shift_right a i c x !! S c = Some NULL.
Proof.
  intros Hi Hc. unfold shift_right. apply list_lookup_insert_eq. len.
Qed.

Lemma length_shift_left_buffer (a : list handle) (i c : nat) :
  (i < c)%nat -> (c < List.length a)%nat ->
  List.length (shift_left_buffer a i c) = List.length a.
Proof. intros Hi Hc. unfold shift_left_buffer. len. Qed.

Lemma take_shift_left_buffer (a : list handle) (i c : nat) :
  (i < c)%nat -> (c < List.length a)%nat ->
  take (pred c) (shift_left_buffer a i c) = take i (take c a) ++ drop (S i) (take c a).
Proof.
  intros Hi Hc. unfold shift_left_buffer.
  rewrite take_insert_ge by lia.
  rewrite take_take, Nat.min_l by lia.
  rewrite take_app_ge by len.
  f_equal. rewrite length_take, Nat.min_l by lia.
  rewrite take_app_le by len. rewrite take_take.
  replace (drop (S i) (take c a)) with (take (pred c - i) (drop (S i) a))
    by (rewrite take_drop_commute; do 2 f_equal; lia).
  f_equal. lia.
Qed.

Lemma lookup_shift_left_buffer_end (a : list handle) (i c : nat) :
  (i < c)%nat -> (c < List.length a)%nat ->
  shift_left_buffer a i c !! pred c = Some NULL.
Proof.
  intros Hi Hc. unfold shift_left_buffer. apply list_lookup_insert_eq. len.
Qed.

Section Execution.

Variable grant : nat -> Z -> bool.
Variable junk : nat -> nat -> handle.

(** [resize] as a case distinction on its argument and on the allocator. *)
Lemma resize_eq (size : Z) (m : machine) :
  resize grant junk size m =
  if size <=? n (obj m) then Ret tt m
  else
    let k := allocs (sys m) in
    let bytes := size_t ((size + 1) * sizeof_ptr) in
    if grant k bytes
    then Ret tt (mkMachine
                   (mkArrayList (resized junk k (arr (obj m)) (Z.to_nat (bytes / sizeof_ptr)))
                                (n (obj m)) size)
                   (mkEnv (stderr (sys m)) (S k)))
    else Exit (mkMachine (obj m)
                 (mkEnv (stderr (sys m) ++ [error_line "out of memory" "resize"]) (S k))).
Proof.
  destruct m as [[a c cap] [err k]]. unfold resize, realloc. exec.
  destruct (size <=? c); [done|].
  destruct (grant k _); reflexivity.
Qed.

Lemma push_back_split (x : handle) (m : machine) :
  push_back grant junk x m = (run grow grant junk; append_slot x) m.
Proof. reflexivity. Qed.

Lemma insert_at_split (x : handle) (i : Z) (m : machine) :
  insert_at grant junk x i m =
  if n (obj m) <? i
  then lift (THROW_ERROR "Index out of range" "insert_at") m
  else (run grow grant junk; insert_slot x i) m.
Proof.
  unfold insert_at. unfold bind at 1. unfold get at 1.
  destruct (n (obj m) <? i); reflexivity.
Qed.

Lemma grow_full (m : machine) :
  wf (obj m) -> n (obj m) = length (obj m) ->
  grow grant junk m =
  let k := allocs (sys m) in
  if grant k (growth_request (obj m))
  then Ret tt (mkMachine
                 (mkArrayList (resized junk k (arr (obj m)) (Z.to_nat (length (obj m) * 2 + 2)))
                              (n (obj m)) (length (obj m) * 2 + 1))
                 (mkEnv (stderr (sys m)) (S k)))
  else Exit (mkMachine (obj m)
               (mkEnv (stderr (sys m) ++ [error_line "out of memory" "resize"]) (S k))).
Proof.
  destruct m as [[a c cap] [err k]].
  unfold wf, terminated_buffer, PTRDIFF_MAX, sizeof_ptr, growth_request. cbn.
  intros (Hn & Hb & Hp) ->.
  unfold grow. exec.
  rewrite Z.eqb_refl, resize_eq. cbn [obj sys n length arr stderr allocs].
  rewrite (size_t_small (cap * 2 + 1)) by (unfold is_size_t, SIZE_MAX; lia).
  destruct (Z.leb_spec (cap * 2 + 1) cap) as [?|_]; [lia|].
  replace (cap * 2 + 1 + 1) with (cap * 2 + 2) by lia.
  rewrite (size_t_small ((cap * 2 + 2) * sizeof_ptr))
    by (unfold is_size_t, SIZE_MAX, sizeof_ptr; lia).
  unfold sizeof_ptr. rewrite Z.div_mul by lia. reflexivity.
Qed.

Lemma grow_room (m : machine) :
  n (obj m) <> length (obj m) -> grow grant junk m = Ret tt m.
Proof.
  intros H. unfold grow, bind, get.
  destruct (Z.eqb_spec (n (obj m)) (length (obj m))); [done | reflexivity].
Qed.

End Execution.

(** ** The element-level steps on a list in range *)

Ltac btrue :=
  repeat (apply andb_true_intro; split);
  first [apply Z.leb_le | apply Z.ltb_lt]; lia.

Ltac unfold_bounds :=
  unfold wf, roomy, terminated_buffer, is_size_t, SIZE_MAX, PTRDIFF_MAX, sizeof_ptr in *.

Lemma append_slot_room (x : handle) (m : machine) :
  roomy (obj m) ->
  append_slot x m =
  Ret tt (mkMachine
            (mkArrayList (<[S (Z.to_nat (n (obj m))) := NULL]>
                            (<[Z.to_nat (n (obj m)) := x]> (arr (obj m))))
                         (n (obj m) + 1) (length (obj m)))
            (sys m)).
Proof.
  destruct m as [[a c cap] e]. unfold_bounds. cbn. intros (Hn & Hb & Hp).
  unfold append_slot. exec.
  rewrite store_in by (cbn; lia). cbn.
  rewrite size_t_small by (unfold_bounds; lia).
  rewrite store_in by (cbn; len). cbn.
  repeat f_equal. lia.
Qed.

Lemma memmove_in (dst src cnt : Z) (m : machine) :
  0 <= src -> 0 <= dst -> 0 <= cnt ->
  src + cnt <= Z.of_nat (List.length (arr (obj m))) ->
  dst + cnt <= Z.of_nat (List.length (arr (obj m))) ->
  memmove dst src (cnt * sizeof_ptr) m =
  Ret tt (mkMachine
            (mkArrayList (take (Z.to_nat dst) (arr (obj m))
                          ++ take (Z.to_nat cnt) (drop (Z.to_nat src) (arr (obj m)))
                          ++ drop (Z.to_nat (dst + cnt)) (arr (obj m)))
                         (n (obj m)) (length (obj m)))
            (sys m)).
Proof.
  intros Hs Hd Hc Hsrc Hdst. unfold memmove. cbv zeta.
  unfold sizeof_ptr. rewrite Z.div_mul by lia.
  replace (_ && _ && _ && _) with true by (symmetry; btrue).
  reflexivity.
Qed.

Lemma insert_slot_room (x : handle) (i : Z) (m : machine) :
  roomy (obj m) -> 0 <= i <= n (obj m) ->
  insert_slot x i m =
  Ret tt (mkMachine
            (mkArrayList (shift_right (arr (obj m)) (Z.to_nat i) (Z.to_nat (n (obj m))) x)
                         (n (obj m) + 1) (length (obj m)))
            (sys m)).
Proof.
  destruct m as [[a c cap] e]. unfold_bounds. cbn. intros (Hn & Hb & Hp) Hi.
  unfold insert_slot. exec.
  rewrite (size_t_small (i + 1)) by (unfold_bounds; lia).
  rewrite (size_t_small (c - i)) by (unfold_bounds; lia).
  rewrite (size_t_small ((c - i) * sizeof_ptr)) by (unfold_bounds; lia).
  rewrite memmove_in by (cbn; lia). cbn.
  rewrite store_in by (cbn; len). cbn.
  rewrite size_t_small by (unfold_bounds; lia).
  rewrite store_in by (cbn; len). cbn.
  unfold shift_right.
  replace (Z.to_nat (c + 1)) with (S (Z.to_nat c)) by lia.
  replace (Z.to_nat (i + 1)) with (S (Z.to_nat i)) by lia.
  replace (Z.to_nat (c - i)) with (Z.to_nat c - Z.to_nat i)%nat by lia.
  replace (Z.to_nat (i + 1 + (c - i))) with (S (Z.to_nat c)) by lia.
  reflexivity.
Qed.

(** The loop of [remove_at], started at slot [i] for [k] rounds. *)
Lemma shift_left_spec (k : nat) : forall (i : nat) (a : list handle) (c cap : Z) (e : env),
  (i + k < List.length a)%nat ->
  Z.of_nat (List.length a) <= SIZE_MAX ->
  shift_left k (Z.of_nat i) (mkMachine (mkArrayList a c cap) e) =
  Ret tt (mkMachine
            (mkArrayList (take i a ++ take k (drop (S i) a) ++ drop (i + k) a) c cap) e).
Proof.
  induction k as [|k IH]; intros i a c cap e Hlen Hmax.
  - cbn [shift_left]. unfold ret.
    rewrite Nat.add_0_r, take_0, app_nil_l, take_drop. reflexivity.
  - cbn [shift_left]. exec.
    rewrite size_t_small by (unfold_bounds; lia).
    destruct (lookup_lt_is_Some_2 a (S i)) as [v Hv]; [lia|].
    rewrite (load_in (Z.of_nat i + 1) _ v);
      [| lia | cbn; by replace (Z.to_nat (Z.of_nat i + 1)) with (S i) by lia].
    rewrite store_in by (cbn; lia). cbn.
    replace (Z.of_nat i + 1) with (Z.of_nat (S i)) by lia.
    rewrite IH by len.
    rewrite Nat2Z.id. do 3 f_equal.
    rewrite take_insert_lt, drop_insert_lt, drop_insert_lt by lia.
    destruct (lookup_lt_is_Some_2 a i) as [w Hw]; [lia|].
    rewrite (take_S_r a i w Hw).
    rewrite insert_app_r_alt by len.
    replace (i - List.length (take i a))%nat with 0%nat by len.
    cbn [list_insert insert].
    rewrite <- app_assoc. f_equal. cbn [app].
    rewrite (drop_S a v (S i) Hv). cbn [take].
    cbn [app]. do 3 f_equal. lia.
Qed.

Lemma append_slot_post (x : handle) (m : machine) :
  roomy (obj m) ->
  exists m', append_slot x m = Ret tt m'
    /\ n (obj m') = n (obj m) + 1
    /\ elements (obj m') = elements (obj m) ++ [x]
    /\ length (obj m') = length (obj m)
    /\ terminated_buffer (obj m')
    /\ sentinel (obj m')
    /\ sys m' = sys m.
Proof.
  intros Hr. rewrite append_slot_room by done. eexists. split; [reflexivity|].
  destruct m as [[a c cap] e]. unfold_bounds. unfold elements, sentinel.
  cbn in *. destruct Hr as (Hn & Hb & Hp).
  replace (Z.to_nat (c + 1)) with (S (Z.to_nat c)) by lia.
  repeat split.
  - rewrite take_insert_ge by lia.
    rewrite (take_S_r _ _ x) by (apply list_lookup_insert_eq; lia).
    by rewrite take_insert_ge by lia.
  - len.
  - apply list_lookup_insert_eq. len.
Qed.

Lemma insert_slot_post (x : handle) (i : Z) (m : machine) :
  roomy (obj m) -> 0 <= i <= n (obj m) ->
  exists m', insert_slot x i m = Ret tt m'
    /\ n (obj m') = n (obj m) + 1
    /\ elements (obj m') =
       take (Z.to_nat i) (elements (obj m)) ++ x :: drop (Z.to_nat i) (elements (obj m))
    /\ length (obj m') = length (obj m)
    /\ terminated_buffer (obj m')
    /\ sentinel (obj m')
    /\ sys m' = sys m.
Proof.
  intros Hr Hi. rewrite insert_slot_room by done. eexists. split; [reflexivity|].
  destruct m as [[a c cap] e]. unfold_bounds. unfold elements, sentinel.
  cbn in *. destruct Hr as (Hn & Hb & Hp).
  replace (Z.to_nat (c + 1)) with (S (Z.to_nat c)) by lia.
  repeat split.
  - apply take_shift_right; lia.
  - rewrite length_shift_right by lia. lia.
  - apply lookup_shift_right_end; lia.
Qed.

Section Growth.

Variable grant : nat -> Z -> bool.
Variable junk : nat -> nat -> handle.

Lemma grow_ok (m : machine) :
  wf (obj m) ->
  n (obj m) <> length (obj m) \/ grant (allocs (sys m)) (growth_request (obj m)) = true ->
  exists m1, grow grant junk m = Ret tt m1
    /\ roomy (obj m1)
    /\ n (obj m1) = n (obj m)
    /\ elements (obj m1) = elements (obj m)
    /\ length (obj m1) = grown_length (obj m)
    /\ stderr (sys m1) = stderr (sys m).
Proof.
  intros Hwf Hg. unfold grown_length.
  destruct (Z.eqb_spec (n (obj m)) (length (obj m))) as [Hfull|Hroom].
  - destruct Hg as [?|Hg]; [done|].
    rewrite grow_full by done. cbv zeta. rewrite Hg.
    eexists. split; [reflexivity|].
    destruct m as [[a c cap] [err k]]. unfold_bounds. unfold elements.
    cbn in *. destruct Hwf as (Hn & Hb & Hp). subst c.
    repeat split; try lia.
    + rewrite length_resized. lia.
    + apply take_resized; lia.
  - rewrite grow_room by done. exists m.
    destruct m as [[a c cap] e]. unfold_bounds. cbn in *.
    repeat split; lia.
Qed.

Lemma grow_starved (m : machine) :
  wf (obj m) -> starved grant m ->
  grow grant junk m =
  Exit (mkMachine (obj m)
          (mkEnv (stderr (sys m) ++ [error_line "out of memory" "resize"])
                 (S (allocs (sys m))))).
Proof.
  intros Hwf [Hfull Hg]. rewrite grow_full by done. cbv zeta. by rewrite Hg.
Qed.

(** [push_back] on a list in range: it appends, after growing a full list;
    a refused growth ends the process with the list untouched. *)
Lemma push_back_ok (x : handle) (m : machine) :
  wf (obj m) ->
  n (obj m) <> length (obj m) \/ grant (allocs (sys m)) (growth_request (obj m)) = true ->
  exists m', push_back grant junk x m = Ret tt m'
    /\ n (obj m') = n (obj m) + 1
    /\ elements (obj m') = elements (obj m) ++ [x]
    /\ length (obj m') = grown_length (obj m)
    /\ terminated_buffer (obj m')
    /\ sentinel (obj m')
    /\ stderr (sys m') = stderr (sys m).
Proof.
  intros Hwf Hg. rewrite push_back_split. unfold bind at 1.
  destruct (grow_ok m Hwf Hg) as (m1 & -> & Hr & Hn & Hel & Hlen & Herr).
  destruct (append_slot_post x m1 Hr) as (m' & -> & Hn' & Hel' & Hlen' & Hb' & Hs' & Hsys').
  exists m'. rewrite Hn', Hel', Hlen', Hsys'. repeat split; congruence.
Qed.

Lemma push_back_starved (x : handle) (m : machine) :
  wf (obj m) -> starved grant m ->
  exists m', push_back grant junk x m = Exit m'
    /\ obj m' = obj m
    /\ stderr (sys m') = stderr (sys m) ++ [error_line "out of memory" "resize"].
Proof.
  intros Hwf Hs. rewrite push_back_split. unfold bind at 1.
  rewrite grow_starved by done. eexists. split; [reflexivity|]. done.
Qed.

Lemma insert_at_ok (x : handle) (i : Z) (m : machine) :
  wf (obj m) -> 0 <= i <= n (obj m) ->
  n (obj m) <> length (obj m) \/ grant (allocs (sys m)) (growth_request (obj m)) = true ->
  exists m', insert_at grant junk x i m = Ret tt m'
    /\ n (obj m') = n (obj m) + 1
    /\ elements (obj m') =
       take (Z.to_nat i) (elements (obj m)) ++ x :: drop (Z.to_nat i) (elements (obj m))
    /\ length (obj m') = grown_length (obj m)
    /\ terminated_buffer (obj m')
    /\ sentinel (obj m')
    /\ stderr (sys m') = stderr (sys m).
Proof.
  intros Hwf Hi Hg. rewrite insert_at_split.
  destruct (Z.ltb_spec (n (obj m)) i) as [?|_]; [lia|]. unfold bind at 1.
  destruct (grow_ok m Hwf Hg) as (m1 & -> & Hr & Hn & Hel & Hlen & Herr).
  destruct (insert_slot_post x i m1 Hr) as (m' & -> & Hn' & Hel' & Hlen' & Hb' & Hs' & Hsys');
    [lia|].
  exists m'. rewrite Hn', Hel', Hlen', Hsys'. repeat split; congruence.
Qed.

Lemma insert_at_starved (x : handle) (i : Z) (m : machine) :
  wf (obj m) -> 0 <= i <= n (obj m) -> starved grant m ->
  exists m', insert_at grant junk x i m = Exit m'
    /\ obj m' = obj m
    /\ stderr (sys m') = stderr (sys m) ++ [error_line "out of memory" "resize"].
Proof.
  intros Hwf Hi Hs. rewrite insert_at_split.
  destruct (Z.ltb_spec (n (obj m)) i) as [?|_]; [lia|]. unfold bind at 1.
  rewrite grow_starved by done. eexists. split; [reflexivity|]. done.
Qed.

Lemma insert_at_out_of_range (x : handle) (i : Z) (m : machine) :
  n (obj m) < i ->
  insert_at grant junk x i m =
  Exit (mkMachine (obj m)
          (mkEnv (stderr (sys m) ++ [error_line "Index out of range" "insert_at"])
                 (allocs (sys m)))).
Proof.
  intros Hi. rewrite insert_at_split.
  destruct (Z.ltb_spec (n (obj m)) i) as [_|?]; [|lia]. reflexivity.
Qed.

End Growth.

(** ** [remove_at], [pop_back], [find] and [shrink_to_fit] on a list in range *)

Lemma remove_at_in_range (i : Z) (m : machine) :
  wf (obj m) -> 0 <= i < n (obj m) ->
  remove_at i m =
  Ret tt (mkMachine
            (mkArrayList (shift_left_buffer (arr (obj m)) (Z.to_nat i) (Z.to_nat (n (obj m))))
                         (n (obj m) - 1) (length (obj m)))
            (sys m)).
Proof.
  destruct m as [[a c cap] e]. unfold_bounds. cbn. intros (Hn & Hb & Hp) Hi.
  unfold remove_at. exec.
  destruct (Z.leb_spec c i) as [?|_]; [lia|].
  rewrite !(size_t_small (c - 1)) by (unfold_bounds; lia).
  rewrite <- (Z2Nat.id i) at 2 by lia.
  rewrite shift_left_spec by (unfold_bounds; lia).
  rewrite !(size_t_small (c - 1)) by (unfold_bounds; lia).
  rewrite store_in by (cbn; len). cbn.
  unfold shift_left_buffer.
  replace (Z.to_nat (c - 1)) with (pred (Z.to_nat c)) by lia.
  replace (Z.to_nat (c - 1 - i)) with (pred (Z.to_nat c) - Z.to_nat i)%nat by lia.
  replace (Z.to_nat i + (pred (Z.to_nat c) - Z.to_nat i))%nat with (pred (Z.to_nat c)) by lia.
  reflexivity.
Qed.

Lemma remove_at_out_of_range (i : Z) (m : machine) :
  n (obj m) <= i ->
  remove_at i m =
  Exit (mkMachine (obj m)
          (mkEnv (stderr (sys m) ++ [error_line "Index out of range" "remove_at"])
                 (allocs (sys m)))).
Proof.
  intros Hi. unfold remove_at. unfold bind at 1. unfold get at 1.
  destruct (Z.leb_spec (n (obj m)) i) as [_|?]; [|lia]. reflexivity.
Qed.

Lemma pop_back_nonempty (m : machine) :
  1 <= n (obj m) <= Z.of_nat (List.length (arr (obj m))) ->
  n (obj m) <= SIZE_MAX ->
  pop_back m =
  Ret tt (mkMachine
            (mkArrayList (<[Z.to_nat (n (obj m) - 1) := NULL]> (arr (obj m)))
                         (n (obj m) - 1) (length (obj m)))
            (sys m)).
Proof.
  destruct m as [[a c cap] e]. cbn. intros Hn Hmax.
  unfold pop_back. exec.
  destruct (Z.eqb_spec c 0) as [?|_]; [lia|].
  rewrite size_t_small by (unfold_bounds; lia).
  rewrite store_in by (cbn; lia). reflexivity.
Qed.

Lemma pop_back_empty (m : machine) :
  n (obj m) = 0 ->
  pop_back m =
  Ret tt (mkMachine (obj m)
            (mkEnv (stderr (sys m) ++ [error_line "Empty list" "pop_back"])
                   (allocs (sys m)))).
Proof.
  intros Hn. unfold pop_back. unfold bind at 1. unfold get at 1.
  rewrite Hn. reflexivity.
Qed.

(** The loop of [find], started at slot [i] for [k] rounds: it stops at the
    first slot whose element compares equal to the target. *)
Lemma find_from_spec (cmp : handle -> handle -> Z) (x : handle) (k : nat) :
  forall (i : nat) (m : machine),
  (i + k <= List.length (arr (obj m)))%nat ->
  Z.of_nat (List.length (arr (obj m))) <= PTRDIFF_MAX ->
  exists r, find_from cmp x k (Z.of_nat i) m = Ret r m
    /\ ((r = -1
         /\ forall j v, (i <= j < i + k)%nat -> arr (obj m) !! j = Some v -> cmp v x <> 0)
        \/ (exists j v, r = Z.of_nat j /\ (i <= j < i + k)%nat
              /\ arr (obj m) !! j = Some v /\ cmp v x = 0
              /\ forall j' w, (i <= j' < j)%nat -> arr (obj m) !! j' = Some w -> cmp w x <> 0)).
Proof.
  induction k as [|k IH]; intros i m Hlen Hmax.
  - exists (-1). split; [reflexivity|]. left. split; [done|]. intros j v Hj. lia.
  - cbn [find_from]. unfold bind.
    destruct (lookup_lt_is_Some_2 (arr (obj m)) i) as [v Hv]; [lia|].
    rewrite (load_in (Z.of_nat i) m v); [| lia | by rewrite Nat2Z.id].
    destruct (Z.eqb_spec (cmp v x) 0) as [Heq|Hne].
    + exists (Z.of_nat i). split.
      * unfold ret, ssize_t.
        destruct (Z.ltb_spec (Z.of_nat i) (2 ^ 63)) as [_|?]; [done|].
        unfold PTRDIFF_MAX in Hmax. lia.
      * right. exists i, v. repeat split; try done; try lia.
    + rewrite size_t_small by (unfold_bounds; lia).
      replace (Z.of_nat i + 1) with (Z.of_nat (S i)) by lia.
      destruct (IH (S i) m) as (r & -> & Hr); [lia | done |].
      exists r. split; [done|].
      destruct Hr as [[-> Hall]|(j & w & -> & Hj & Hw & Hc & Hbefore)].
      * left. split; [done|]. intros j u Hj Hu.
        destruct (decide (j = i)) as [->|]; [congruence|]. apply (Hall j u); [lia | done].
      * right. exists j, w. repeat split; try done; try lia.
        intros j' u Hj' Hu.
        destruct (decide (j' = i)) as [->|]; [congruence|]. apply (Hbefore j' u); [lia | done].
Qed.

Section Shrink.

Variable grant : nat -> Z -> bool.
Variable junk : nat -> nat -> handle.

(** [shrink_to_fit] as a case distinction on the list and on the allocator. *)
Lemma shrink_to_fit_eq (m : machine) :
  shrink_to_fit grant junk m =
  if n (obj m) =? length (obj m) then Ret tt m
  else
    let k := allocs (sys m) in
    let bytes := size_t ((n (obj m) + 1) * sizeof_ptr) in
    if grant k bytes
    then Ret tt (mkMachine
                   (mkArrayList (resized junk k (arr (obj m)) (Z.to_nat (bytes / sizeof_ptr)))
                                (n (obj m)) (n (obj m)))
                   (mkEnv (stderr (sys m)) (S k)))
    else Exit (mkMachine (obj m)
                 (mkEnv (stderr (sys m) ++ [error_line "out of memory" "shrink_to_fit"])
                        (S k))).
Proof.
  destruct m as [[a c cap] [err k]]. unfold shrink_to_fit, realloc. exec.
  destruct (c =? cap); [done|].
  destruct (grant k _); reflexivity.
Qed.

Lemma shrink_to_fit_twice (m : machine) :
  (run shrink_to_fit grant junk; shrink_to_fit grant junk) m = shrink_to_fit grant junk m.
Proof.
  unfold bind. rewrite (shrink_to_fit_eq m).
  destruct (Z.eqb_spec (n (obj m)) (length (obj m))) as [Heq|Hne].
  - rewrite shrink_to_fit_eq. by rewrite (proj2 (Z.eqb_eq _ _) Heq).
  - cbv zeta. destruct (grant _ _); [|done].
    rewrite shrink_to_fit_eq. cbn [obj n length]. by rewrite Z.eqb_refl.
Qed.

End Shrink.

(** * The properties of the specification *)

Ltac in_range := unfold_bounds; cbn; lia.

(** ** Insertion and removal at an index *)

(** C3. On a list in range, [insert_at element index] with
    [0 <= index <= n] returns with the elements from [index] on moved one
    slot to the right in their order, [element] at [index] and the count
    raised by one (an index equal to the count appends), unless the list is
    full and the allocator refuses the growth, which ends the process with
    the list untouched; with [index > n] it ends the process with the
    "Index out of range" report and leaves count, capacity and buffer as
    they were. *)
Theorem insert_at_correct (grant : nat -> Z -> bool) (junk : nat -> nat -> handle)
    (x : handle) (i : Z) (m : machine) :
  wf (obj m) -> is_size_t i ->
  (i <= n (obj m) ->
     (n (obj m) <> length (obj m)
      \/ grant (allocs (sys m)) (growth_request (obj m)) = true ->
      exists m', insert_at grant junk x i m = Ret tt m'
        /\ n (obj m') = n (obj m) + 1
        /\ elements (obj m') =
           take (Z.to_nat i) (elements (obj m)) ++ x :: drop (Z.to_nat i) (elements (obj m))
        /\ (i = n (obj m) -> elements (obj m') = elements (obj m) ++ [x])
        /\ stderr (sys m') = stderr (sys m))
     /\ (starved grant m ->
         exists m', insert_at grant junk x i m = Exit m'
           /\ obj m' = obj m
           /\ stderr (sys m') = stderr (sys m) ++ [report OutOfMemory "resize"]))
  /\ (n (obj m) < i ->
      exists m', insert_at grant junk x i m = Exit m'
        /\ obj m' = obj m
        /\ stderr (sys m') = stderr (sys m) ++ [report IndexOutOfRange "insert_at"]).
Proof.
  intros Hwf [Hi0 Hi1]. split; [intros Hi; split|].
  - intros Hg.
    destruct (insert_at_ok grant junk x i m Hwf) as (m' & E & Hn & Hel & _ & _ & _ & Herr);
      [lia | done |].
    exists m'. repeat split; try done.
    intros ->. rewrite Hel. unfold elements at 1 2.
    rewrite take_take, Nat.min_id.
    rewrite drop_ge by (rewrite length_take; lia). done.
  - intros Hs. apply insert_at_starved; [done | lia | done].
  - intros Hi. rewrite insert_at_out_of_range by done.
    eexists. split; [reflexivity|]. done.
Qed.

Lemma insert_at_correct_witness :
  wf (obj list_with_room) /\ is_size_t 1
  /\ exists m', insert_at grant_all junk_pattern 99 1 list_with_room = Ret tt m'
       /\ elements (obj m') = [10; 99; 20; 30].
Proof.
  assert (Hwf : wf (obj list_with_room)) by in_range.
  assert (Hi : is_size_t 1) by in_range.
  split; [exact Hwf|]. split; [exact Hi|].
  destruct (insert_at_correct grant_all junk_pattern 99 1 list_with_room Hwf Hi) as [Hin _].
  destruct Hin as [Hok _]; [cbn; lia|].
  destruct Hok as (m' & E & _ & Hel & _); [left; cbn; lia|].
  exists m'. split; [exact E|]. rewrite Hel. reflexivity.
Defined.

(** C4. On a non-empty list in range, [remove_at index] with
    [0 <= index < n] returns with the elements behind [index] moved one slot
    to the left, all elements but the removed one in their order, and the
    count lowered by one; with [index >= n] it ends the process with the
    "Index out of range" report and leaves the list as it was. *)
Theorem remove_at_correct (i : Z) (m : machine) :
  wf (obj m) -> is_size_t i ->
  (i < n (obj m) ->
     exists m', remove_at i m = Ret tt m'
       /\ n (obj m') = n (obj m) - 1
       /\ elements (obj m') =
          take (Z.to_nat i) (elements (obj m)) ++ drop (S (Z.to_nat i)) (elements (obj m))
       /\ length (obj m') = length (obj m)
       /\ sys m' = sys m)
  /\ (n (obj m) <= i ->
      exists m', remove_at i m = Exit m'
        /\ obj m' = obj m
        /\ stderr (sys m') = stderr (sys m) ++ [report IndexOutOfRange "remove_at"]).
Proof.
  intros Hwf [Hi0 Hi1]. split.
  - intros Hi. rewrite remove_at_in_range by (done || lia).
    eexists. split; [reflexivity|].
    destruct m as [[a c cap] e]. unfold_bounds. unfold elements. cbn in *.
    destruct Hwf as (Hn & Hb & Hp). repeat split.
    replace (Z.to_nat (c - 1)) with (pred (Z.to_nat c)) by lia.
    apply take_shift_left_buffer; lia.
  - intros Hi. rewrite remove_at_out_of_range by done.
    eexists. split; [reflexivity|]. done.
Qed.

Lemma remove_at_correct_witness :
  wf (obj list_with_room) /\ is_size_t 0
  /\ exists m', remove_at 0 list_with_room = Ret tt m'
       /\ elements (obj m') = [20; 30].
Proof.
  assert (Hwf : wf (obj list_with_room)) by in_range.
  assert (Hi : is_size_t 0) by in_range.
  split; [exact Hwf|]. split; [exact Hi|].
  destruct (remove_at_correct 0 list_with_room Hwf Hi) as [Hin _].
  destruct Hin as (m' & E & _ & Hel & _); [cbn; lia|].
  exists m'. split; [exact E|]. rewrite Hel. reflexivity.
Defined.

(** ** Removal at the end *)

(** C5. On a non-empty list in range, [pop_back] removes the element at
    index [n - 1]: the count drops by one and the other elements stay; on an
    empty list it returns normally, leaves count, capacity and buffer as they
    were (the count stays 0) and reports "Empty list" on [stderr]. *)
Theorem pop_back_correct (m : machine) :
  wf (obj m) ->
  (n (obj m) <> 0 ->
     exists m', pop_back m = Ret tt m'
       /\ n (obj m') = n (obj m) - 1
       /\ elements (obj m') = take (Z.to_nat (n (obj m) - 1)) (elements (obj m))
       /\ length (obj m') = length (obj m)
       /\ sys m' = sys m)
  /\ (n (obj m) = 0 ->
      exists m', pop_back m = Ret tt m'
        /\ obj m' = obj m
        /\ n (obj m') = 0
        /\ stderr (sys m') = stderr (sys m) ++ [report EmptyContainer "pop_back"]).
Proof.
  intros Hwf. split.
  - intros Hne. rewrite pop_back_nonempty by (unfold_bounds; lia).
    eexists. split; [reflexivity|].
    destruct m as [[a c cap] e]. unfold_bounds. unfold elements. cbn in *.
    destruct Hwf as (Hn & Hb & Hp). repeat split.
    rewrite take_insert_ge by lia. rewrite take_take. f_equal. lia.
  - intros Hz. rewrite pop_back_empty by done.
    eexists. split; [reflexivity|]. done.
Qed.

Lemma pop_back_correct_witness :
  wf (obj list_empty)
  /\ exists m', pop_back list_empty = Ret tt m'
       /\ obj m' = obj list_empty
       /\ stderr (sys m') = [report EmptyContainer "pop_back"].
Proof.
  assert (Hwf : wf (obj list_empty)) by in_range.
  split; [exact Hwf|].
  destruct (pop_back_correct list_empty Hwf) as [_ Hempty].
  destruct Hempty as (m' & E & Hobj & _ & Herr); [reflexivity|].
  exists m'. split; [exact E|]. split; [exact Hobj | exact Herr].
Defined.

(** ** Search *)

(** C6. On a list in range, [find] scans the slots [0 .. n-1] upwards and
    returns the lowest index whose element the comparator reports equal to
    the target (the comparator returns 0); it returns -1 when there is no
    such index, in particular on an empty list.  The list is not changed. *)
Theorem find_correct (x : handle) (cmp : handle -> handle -> Z) (m : machine) :
  wf (obj m) ->
  exists r, find x cmp m = Ret r m
    /\ ((r = -1
         /\ forall j v, elements (obj m) !! j = Some v -> cmp v x <> 0)
        \/ (0 <= r < n (obj m)
            /\ exists v, elements (obj m) !! Z.to_nat r = Some v /\ cmp v x = 0
                 /\ forall j w, (j < Z.to_nat r)%nat ->
                      elements (obj m) !! j = Some w -> cmp w x <> 0))
    /\ (n (obj m) = 0 -> r = -1).
Proof.
  intros Hwf. unfold find, bind, get.
  destruct (find_from_spec cmp x (Z.to_nat (n (obj m))) 0 m) as (r & E & Hr).
  { unfold_bounds. lia. }
  { unfold_bounds. lia. }
  exists r. split; [exact E|].
  assert (Hpos : 0 <= n (obj m)) by (unfold_bounds; lia).
  unfold elements.
  destruct Hr as [[-> Hall]|(j & v & -> & Hj & Hv & Hc & Hbefore)].
  - split; [|done]. left. split; [done|]. intros j v Hv.
    assert (j < Z.to_nat (n (obj m)))%nat.
    { apply lookup_lt_Some in Hv. rewrite length_take in Hv. lia. }
    rewrite lookup_take_lt in Hv by done. apply (Hall j v); [lia | done].
  - split; [|lia]. right. split; [lia|]. exists v. rewrite Nat2Z.id.
    split; [by rewrite lookup_take_lt by lia|]. split; [done|].
    intros j' w Hj' Hw. rewrite lookup_take_lt in Hw by lia.
    apply (Hbefore j' w); [lia | done].
Qed.

Lemma find_correct_witness :
  wf (obj list_with_room)
  /\ exists r, find 20 Z.sub list_with_room = Ret r list_with_room /\ r = 1.
Proof.
  assert (Hwf : wf (obj list_with_room)) by in_range.
  split; [exact Hwf|].
  destruct (find_correct 20 Z.sub list_with_room Hwf) as (r & E & _).
  exists r. split; [exact E|].
  vm_compute in E. congruence.
Defined.

(** ** Giving capacity back *)

(** C8. On a list in range, [shrink_to_fit] returns the list unchanged when
    the capacity equals the count; otherwise, when the allocator serves the
    request, it returns with the capacity equal to the count and with count
    and elements as before (a refused request ends the process with the list
    untouched).  Calling it twice in a row gives the outcome of calling it
    once. *)
Theorem shrink_to_fit_correct (grant : nat -> Z -> bool) (junk : nat -> nat -> handle)
    (m : machine) :
  wf (obj m) ->
  (n (obj m) = length (obj m) -> shrink_to_fit grant junk m = Ret tt m)
  /\ (n (obj m) <> length (obj m) ->
      (grant (allocs (sys m)) ((n (obj m) + 1) * sizeof_ptr) = true ->
       exists m', shrink_to_fit grant junk m = Ret tt m'
         /\ length (obj m') = n (obj m)
         /\ n (obj m') = n (obj m)
         /\ elements (obj m') = elements (obj m)
         /\ terminated_buffer (obj m')
         /\ stderr (sys m') = stderr (sys m))
      /\ (grant (allocs (sys m)) ((n (obj m) + 1) * sizeof_ptr) = false ->
          exists m', shrink_to_fit grant junk m = Exit m'
            /\ obj m' = obj m
            /\ stderr (sys m') = stderr (sys m) ++ [report OutOfMemory "shrink_to_fit"]))
  /\ (run shrink_to_fit grant junk; shrink_to_fit grant junk) m = shrink_to_fit grant junk m.
Proof.
  intros Hwf. split; [|split]; [| |apply shrink_to_fit_twice].
  - intros Heq. rewrite shrink_to_fit_eq. by rewrite (proj2 (Z.eqb_eq _ _) Heq).
  - intros Hne. rewrite shrink_to_fit_eq.
    destruct (Z.eqb_spec (n (obj m)) (length (obj m))) as [?|_]; [done|]. cbv zeta.
    assert (Hbytes : size_t ((n (obj m) + 1) * sizeof_ptr) = (n (obj m) + 1) * sizeof_ptr).
    { apply size_t_small. unfold_bounds. lia. }
    rewrite Hbytes. split; intros ->.
    + eexists. split; [reflexivity|].
      destruct m as [[a c cap] [err k]]. unfold_bounds. unfold elements. cbn in *.
      destruct Hwf as (Hn & Hb & Hp). rewrite Z.div_mul by lia.
      repeat split.
      * apply take_resized; lia.
      * rewrite length_resized. lia.
    + eexists. split; [reflexivity|]. done.
Qed.

Lemma shrink_to_fit_correct_witness :
  wf (obj list_with_room)
  /\ exists m', shrink_to_fit grant_all junk_pattern list_with_room = Ret tt m'
       /\ length (obj m') = 3 /\ elements (obj m') = [10; 20; 30].
Proof.
  assert (Hwf : wf (obj list_with_room)) by in_range.
  split; [exact Hwf|].
  destruct (shrink_to_fit_correct grant_all junk_pattern list_with_room Hwf)
    as (_ & Hshrink & _).
  destruct Hshrink as [Hok _]; [cbn; lia|].
  destruct Hok as (m' & E & Hlen & _ & Hel & _); [reflexivity|].
  exists m'. split; [exact E|]. split; [exact Hlen|]. rewrite Hel. reflexivity.
Defined.

(** ** Round trip *)

(** C9. On a list in range, [push_back x] followed at once by [pop_back]
    returns with the count and the elements in slots [0 .. n-1] as they were
    before the [push_back] (unless the list is full and the allocator
    refuses the growth, which ends the process with the list untouched). *)
Theorem push_back_pop_back_roundtrip (grant : nat -> Z -> bool)
    (junk : nat -> nat -> handle) (x : handle) (m : machine) :
  wf (obj m) ->
  (n (obj m) <> length (obj m)
   \/ grant (allocs (sys m)) (growth_request (obj m)) = true ->
   exists m', (run push_back grant junk x; pop_back) m = Ret tt m'
     /\ n (obj m') = n (obj m)
     /\ elements (obj m') = elements (obj m)
     /\ stderr (sys m') = stderr (sys m))
  /\ (starved grant m ->
      exists m', (run push_back grant junk x; pop_back) m = Exit m'
        /\ obj m' = obj m).
Proof.
  intros Hwf. split.
  - intros Hg. unfold bind.
    destruct (push_back_ok grant junk x m Hwf Hg)
      as (m1 & -> & Hn & Hel & Hlen & Hb & _ & Herr).
    assert (Hgrown : n (obj m) < grown_length (obj m)).
    { unfold grown_length. unfold_bounds.
      destruct (Z.eqb_spec (n (obj m)) (length (obj m))); lia. }
    unfold_bounds.
    rewrite pop_back_nonempty by (unfold_bounds; lia).
    eexists. split; [reflexivity|]. cbn. rewrite Hn.
    repeat split; [lia | | done].
    unfold elements in *. cbn.
    replace (n (obj m) + 1 - 1) with (n (obj m)) by lia.
    rewrite take_insert_ge by lia.
    rewrite Hn in Hel.
    replace (Z.to_nat (n (obj m) + 1)) with (S (Z.to_nat (n (obj m)))) in Hel by lia.
    apply (f_equal (take (Z.to_nat (n (obj m))))) in Hel.
    rewrite take_take, Nat.min_l in Hel by lia.
    rewrite Hel. apply take_app_length'. rewrite length_take. lia.
  - intros Hs. unfold bind.
    destruct (push_back_starved grant junk x m Hwf Hs) as (m' & -> & Hobj & _).
    exists m'. done.
Qed.

Lemma push_back_pop_back_roundtrip_witness :
  wf (obj list_full)
  /\ exists m', (run push_back grant_all junk_pattern 77; pop_back) list_full = Ret tt m'
       /\ n (obj m') = 2 /\ elements (obj m') = [10; 20].
Proof.
  assert (Hwf : wf (obj list_full)) by in_range.
  split; [exact Hwf|].
  destruct (push_back_pop_back_roundtrip grant_all junk_pattern 77 list_full Hwf)
    as [Hok _].
  destruct Hok as (m' & E & Hn & Hel & _); [right; reflexivity|].
  exists m'. split; [exact E|]. split; [exact Hn|]. rewrite Hel. reflexivity.
Defined.

(** ** Growth *)

Section GrowthPolicy.

Variable grant : nat -> Z -> bool.
Variable junk : nat -> nat -> handle.

Lemma calloc_eq (nmemb size : Z) (e : env) :
  calloc grant nmemb size e =
  if SIZE_MAX <? nmemb * size then Ret None e
  else Ret (if grant (allocs e) (nmemb * size)
            then Some (replicate (Z.to_nat (nmemb * size / sizeof_ptr)) NULL)
            else None)
           (mkEnv (stderr e) (S (allocs e))).
Proof.
  unfold calloc. destruct (SIZE_MAX <? nmemb * size); [reflexivity|].
  exec. destruct (grant _ _); reflexivity.
Qed.

(** [init] as a case distinction on its argument and on the allocator. *)
Lemma init_eq (length : Z) (e : env) :
  is_size_t length ->
  init grant length e =
  let k := allocs e in
  let oom := stderr e ++ [report OutOfMemory "init"] in
  if grant k sizeof_ArrayList
  then
    if length =? SIZE_MAX
    then (if grant (S k) 0 then Undef else Exit (mkEnv oom (S (S k))))
    else if SIZE_MAX <? (length + 1) * sizeof_ptr
    then Exit (mkEnv oom (S k))
    else if grant (S k) ((length + 1) * sizeof_ptr)
    then Ret (mkArrayList (replicate (Z.to_nat (length + 1)) NULL) 0 length)
             (mkEnv (stderr e) (S (S k)))
    else Exit (mkEnv oom (S (S k)))
  else Exit (mkEnv oom (S k)).
Proof.
  intros Hl. destruct e as [err k]. unfold init, malloc. exec.
  destruct (grant k sizeof_ArrayList); [|reflexivity]. cbn [negb].
  rewrite calloc_eq. cbn [stderr allocs].
  destruct (Z.eqb_spec length SIZE_MAX) as [->|Hne].
  - change (size_t (SIZE_MAX + 1)) with 0.
    rewrite Z.mul_0_l. change (SIZE_MAX <? 0) with false. cbv iota.
    destruct (grant (S k) 0); reflexivity.
  - rewrite size_t_small by (unfold_bounds; lia).
    destruct (SIZE_MAX <? (length + 1) * sizeof_ptr); [reflexivity|].
    destruct (grant (S k) _); [|reflexivity].
    unfold sizeof_ptr. rewrite Z.div_mul by lia.
    replace (Z.to_nat (length + 1)) with (S (Z.to_nat length)) by (unfold_bounds; lia).
    reflexivity.
Qed.

(** What [init] returns is in range and terminated. *)
Lemma init_wf (len : Z) (e e' : env) (l : ArrayList) :
  bounded grant -> is_size_t len ->
  init grant len e = Ret l e' ->
  wf l /\ sentinel l /\ n l = 0 /\ length l = len.
Proof.
  intros Hb Hl. rewrite init_eq by done. cbv zeta.
  destruct (grant (allocs e) sizeof_ArrayList); [|discriminate].
  destruct (Z.eqb_spec len SIZE_MAX) as [->|Hne].
  { destruct (grant _ 0); discriminate. }
  destruct (SIZE_MAX <? (len + 1) * sizeof_ptr); [discriminate|].
  destruct (grant (S (allocs e)) _) eqn:Hg; [|discriminate].
  intros [= <- <-]. apply Hb in Hg.
  unfold_bounds. unfold sentinel. cbn. rewrite length_replicate.
  repeat split; try lia.
  apply lookup_replicate_2. lia.
Qed.

Lemma push_back_wf (x : handle) (m m' : machine) :
  bounded grant -> wf (obj m) ->
  push_back grant junk x m = Ret tt m' ->
  wf (obj m') /\ sentinel (obj m')
  /\ n (obj m') = n (obj m) + 1
  /\ elements (obj m') = elements (obj m) ++ [x].
Proof.
  intros Hb Hwf E.
  destruct (grant (allocs (sys m)) (growth_request (obj m))) eqn:Hg.
  - destruct (push_back_ok grant junk x m Hwf) as (m1 & E1 & Hn & Hel & Hlen & Hbuf & Hs & _);
      [by right|].
    rewrite E1 in E. injection E as <-.
    repeat split; try done.
    + unfold_bounds. lia.
    + rewrite Hn, Hlen. unfold grown_length. unfold_bounds.
      destruct (Z.eqb_spec (n (obj m)) (length (obj m))); lia.
    + rewrite Hlen. unfold grown_length. apply Hb in Hg.
      unfold growth_request in Hg. unfold_bounds.
      destruct (Z.eqb_spec (n (obj m)) (length (obj m))); lia.
  - destruct (decide (n (obj m) = length (obj m))) as [Hfull|Hroom].
    + destruct (push_back_starved grant junk x m Hwf) as (m1 & E1 & _); [done|].
      rewrite E1 in E. discriminate.
    + destruct (push_back_ok grant junk x m Hwf) as (m1 & E1 & Hn & Hel & Hlen & Hbuf & Hs & _);
        [by left|].
      rewrite E1 in E. injection E as <-.
      assert (Hsame : length (obj m1) = length (obj m)).
      { rewrite Hlen. unfold grown_length.
        destruct (Z.eqb_spec (n (obj m)) (length (obj m))); done. }
      repeat split; try done; unfold_bounds; lia.
Qed.

(** A run of [push_back] calls on a list in range returns the list with
    the new elements appended, or ends because the allocator refused. *)
Lemma push_all_outcome (xs : list handle) : forall m : machine,
  bounded grant -> wf (obj m) ->
  match push_all grant junk xs m with
  | Ret _ m' =>
      wf (obj m') /\ elements (obj m') = elements (obj m) ++ xs
      /\ n (obj m') = n (obj m) + Z.of_nat (List.length xs)
  | Exit m' => last (stderr (sys m')) = Some (report OutOfMemory "resize")
  | Undef => False
  end.
Proof.
  induction xs as [|x xs IH]; intros m Hb Hwf.
  - cbn [push_all]. unfold ret. rewrite app_nil_r.
    split; [done|]. split; [done|]. cbn [List.length]. lia.
  - cbn [push_all]. unfold bind.
    destruct (decide (starved grant m)) as [Hs|Hs].
    + destruct (push_back_starved grant junk x m Hwf Hs) as (m1 & -> & _ & Herr).
      rewrite Herr. apply last_snoc.
    + destruct (push_back_ok grant junk x m Hwf) as (m1 & E & _).
      { unfold starved in Hs.
        destruct (decide (n (obj m) = length (obj m))); [|by left].
        right. destruct (grant _ _); [done|]. exfalso. by apply Hs. }
      rewrite E.
      destruct (push_back_wf x m m1 Hb Hwf E) as (Hwf1 & _ & Hn1 & Hel1).
      specialize (IH m1 Hb Hwf1).
      destruct (push_all grant junk xs m1) as [[] m'| |]; [|done|done].
      destruct IH as (Hwf' & Hel' & Hn'). split; [done|]. split.
      * rewrite Hel', Hel1, <- app_assoc. done.
      * rewrite Hn', Hn1. cbn [List.length]. lia.
Qed.

(** With an allocator that serves every request up to the size of the
    final buffer, the run returns. *)
Lemma push_all_served (xs : list handle) : forall m : machine,
  bounded grant -> wf (obj m) ->
  (forall k b, 0 <= b <= 16 * (n (obj m) + Z.of_nat (List.length xs)) -> grant k b = true) ->
  exists m', push_all grant junk xs m = Ret tt m'.
Proof.
  induction xs as [|x xs IH]; intros m Hb Hwf Hserve.
  - exists m. reflexivity.
  - cbn [push_all]. unfold bind.
    destruct (push_back_ok grant junk x m Hwf) as (m1 & E & _).
    { destruct (decide (n (obj m) = length (obj m))) as [Hfull|]; [|by left].
      right. apply Hserve. unfold growth_request. unfold_bounds.
      cbn [List.length]. lia. }
    rewrite E.
    destruct (push_back_wf x m m1 Hb Hwf E) as (Hwf1 & _ & Hn1 & _).
    apply (IH m1 Hb Hwf1).
    intros k b Hk. apply Hserve. cbn [List.length]. lia.
Qed.

Lemma program_push_all_outcome (xs : list handle) (e : env) :
  bounded grant ->
  match program grant 0 (push_all grant junk xs) e with
  | Ret l e' => wf l /\ elements l = xs /\ n l = Z.of_nat (List.length xs)
  | Exit e' => last (stderr e') = Some (report OutOfMemory "init")
               \/ last (stderr e') = Some (report OutOfMemory "resize")
  | Undef => False
  end.
Proof.
  intros Hb. unfold program, bind.
  destruct (init grant 0 e) as [l e1|e1|] eqn:E.
  - destruct (init_wf 0 e e1 l Hb) as (Hwf & _ & Hn & _); [in_range | done |].
    pose proof (push_all_outcome xs (mkMachine l e1) Hb Hwf) as H.
    destruct (push_all grant junk xs (mkMachine l e1)) as [[] m'|m'|]; [| by right | done].
    destruct H as (Hwf' & Hel & Hn'). cbn in Hel, Hn'.
    unfold elements in Hel at 2. rewrite Hn in Hel, Hn'. cbn in Hel.
    split; [done|]. split; [done|]. lia.
  - left. rewrite init_eq in E by in_range. cbv zeta in E.
    change (0 =? SIZE_MAX) with false in E.
    change (SIZE_MAX <? (0 + 1) * sizeof_ptr) with false in E. cbv iota in E.
    destruct (grant (allocs e) sizeof_ArrayList);
      [destruct (grant (S (allocs e)) _); [discriminate|]|];
      injection E as <-; apply last_snoc.
  - rewrite init_eq in E by in_range. cbv zeta in E.
    change (0 =? SIZE_MAX) with false in E.
    change (SIZE_MAX <? (0 + 1) * sizeof_ptr) with false in E. cbv iota in E.
    destruct (grant (allocs e) sizeof_ArrayList);
      [destruct (grant (S (allocs e)) _)|]; discriminate.
Qed.

Lemma program_push_all_served (xs : list handle) (e : env) :
  bounded grant ->
  (forall k b, 0 <= b <= 16 * Z.of_nat (List.length xs) + 24 -> grant k b = true) ->
  exists l e', program grant 0 (push_all grant junk xs) e = Ret l e'.
Proof.
  intros Hb Hserve. unfold program, bind.
  rewrite init_eq by in_range. cbv zeta.
  change (0 =? SIZE_MAX) with false.
  change (SIZE_MAX <? (0 + 1) * sizeof_ptr) with false. cbv iota.
  rewrite !Hserve by (unfold sizeof_ArrayList, sizeof_ptr; lia).
  set (m0 := mkMachine _ _).
  destruct (push_all_served xs m0 Hb) as (m' & ->).
  - subst m0. unfold_bounds. cbn [obj arr n length].
    rewrite length_replicate. lia.
  - intros k b Hk. apply Hserve. subst m0. cbn in Hk. lia.
  - eauto.
Qed.

End GrowthPolicy.

(** C2. On a full list in range, [push_back] and [insert_at] first run the
    growth step, which (if the allocator serves it) returns with the capacity
    equal to exactly [2 * capacity + 1] and count and elements untouched, and
    only then store the element; a refused growth ends the process with the
    list untouched.  Hence a program that creates a list of capacity 0 and
    pushes any number of elements either returns the list holding exactly
    these elements or ends on the allocator's refusal, never for want of
    capacity, and it returns whenever the allocator serves requests up to the
    size of the final buffer; each growth makes the capacity strictly
    larger. *)
Theorem growth_correct (grant : nat -> Z -> bool) (junk : nat -> nat -> handle) :
  (forall (x : handle) (i : Z) (m : machine),
     wf (obj m) -> n (obj m) = length (obj m) -> 0 <= i <= n (obj m) ->
     (grant (allocs (sys m)) (growth_request (obj m)) = true ->
      exists m1 m' m'',
        grow grant junk m = Ret tt m1
        /\ length (obj m1) = 2 * length (obj m) + 1
        /\ length (obj m) < length (obj m1)
        /\ n (obj m1) = n (obj m) /\ elements (obj m1) = elements (obj m)
        /\ push_back grant junk x m = append_slot x m1
        /\ push_back grant junk x m = Ret tt m'
        /\ length (obj m') = 2 * length (obj m) + 1
        /\ elements (obj m') = elements (obj m) ++ [x]
        /\ insert_at grant junk x i m = insert_slot x i m1
        /\ insert_at grant junk x i m = Ret tt m''
        /\ length (obj m'') = 2 * length (obj m) + 1
        /\ elements (obj m'') =
           take (Z.to_nat i) (elements (obj m)) ++ x :: drop (Z.to_nat i) (elements (obj m)))
     /\ (grant (allocs (sys m)) (growth_request (obj m)) = false ->
         exists m',
           push_back grant junk x m = Exit m'
           /\ insert_at grant junk x i m = Exit m'
           /\ obj m' = obj m
           /\ stderr (sys m') = stderr (sys m) ++ [report OutOfMemory "resize"]))
  /\ (bounded grant ->
      forall (xs : list handle) (e : env),
        match program grant 0 (push_all grant junk xs) e with
        | Ret l e' => wf l /\ elements l = xs /\ n l = Z.of_nat (List.length xs)
        | Exit e' => last (stderr e') = Some (report OutOfMemory "init")
                     \/ last (stderr e') = Some (report OutOfMemory "resize")
        | Undef => False
        end)
  /\ (bounded grant ->
      forall (xs : list handle) (e : env),
        (forall k b, 0 <= b <= 16 * Z.of_nat (List.length xs) + 24 -> grant k b = true) ->
        exists l e', program grant 0 (push_all grant junk xs) e = Ret l e'
          /\ elements l = xs).
Proof.
  split; [|split].
  - intros x i m Hwf Hfull Hi. split; intros Hg.
    + destruct (grow_ok grant junk m Hwf) as (m1 & E1 & _ & Hn1 & Hel1 & Hlen1 & _);
        [by right|].
      destruct (push_back_ok grant junk x m Hwf) as (m' & E' & _ & Hel' & Hlen' & _);
        [by right|].
      destruct (insert_at_ok grant junk x i m Hwf Hi) as (m'' & E'' & _ & Hel'' & Hlen'' & _);
        [by right|].
      unfold grown_length in *.
      rewrite (proj2 (Z.eqb_eq _ _) Hfull) in Hlen1, Hlen', Hlen''.
      exists m1, m', m''.
      assert (0 <= length (obj m)) by (unfold_bounds; lia).
      repeat split; try done; try lia.
      * rewrite push_back_split. unfold bind. by rewrite E1.
      * rewrite insert_at_split.
        destruct (Z.ltb_spec (n (obj m)) i) as [?|_]; [lia|].
        unfold bind. by rewrite E1.
    + destruct (push_back_starved grant junk x m Hwf) as (m' & E' & Hobj & Herr); [done|].
      destruct (insert_at_starved grant junk x i m Hwf Hi) as (m'' & E'' & _); [done|].
      exists m'. repeat split; try done.
      rewrite E''. rewrite push_back_split in E'. rewrite insert_at_split in E''.
      destruct (Z.ltb_spec (n (obj m)) i) as [?|_]; [lia|].
      unfold bind in E', E''. rewrite grow_starved in E', E'' by done. congruence.
  - intros Hb xs e. by apply program_push_all_outcome.
  - intros Hb xs e Hserve.
    destruct (program_push_all_served grant junk xs e Hb Hserve) as (l & e' & E).
    exists l, e'. split; [done|].
    pose proof (program_push_all_outcome grant junk xs e Hb) as H.
    rewrite E in H. tauto.
Qed.

Lemma grant_all_bounded : bounded grant_all.
Proof. intros k b H. unfold grant_all in H. by apply Z.leb_le in H. Qed.

Lemma growth_correct_witness :
  wf (obj list_full) /\ bounded grant_all
  /\ (exists m', push_back grant_all junk_pattern 77 list_full = Ret tt m'
        /\ length (obj m') = 5 /\ elements (obj m') = [10; 20; 77])
  /\ (exists l e',
        program grant_all 0 (push_all grant_all junk_pattern [1; 2; 3]) env0 = Ret l e'
        /\ elements l = [1; 2; 3]).
Proof.
  assert (Hwf : wf (obj list_full)) by in_range.
  split; [exact Hwf|]. split; [exact grant_all_bounded|].
  destruct (growth_correct grant_all junk_pattern) as (Hfull & _ & Hserved).
  split.
  - destruct (Hfull 77 0 list_full Hwf) as [Hok _]; [reflexivity | cbn; lia |].
    destruct Hok as (m1 & m' & m'' & _ & _ & _ & _ & _ & _ & E & Hlen & Hel & _);
      [reflexivity|].
    exists m'. split; [exact E|]. split; [exact Hlen|]. rewrite Hel. reflexivity.
  - apply (Hserved grant_all_bounded [1; 2; 3] env0).
    intros k b Hk. unfold grant_all. apply Z.leb_le.
    cbn in Hk. unfold PTRDIFF_MAX. lia.
Defined.

(** ** The count never exceeds the capacity *)

Lemma bind_ret_inv {S A B : Type} (c : M S A) (k : A -> M S B) (s s' : S) (b : B) :
  bind c k s = Ret b s' -> exists a s1, c s = Ret a s1 /\ k a s1 = Ret b s'.
Proof. unfold bind. destruct (c s) as [a s1| |]; [eauto | discriminate | discriminate]. Qed.

Lemma bind_exit_inv {S A B : Type} (c : M S A) (k : A -> M S B) (s s' : S) :
  bind c k s = Exit s' ->
  c s = Exit s' \/ exists a s1, c s = Ret a s1 /\ k a s1 = Exit s'.
Proof.
  unfold bind. intros H. destruct (c s) as [a s1|s1|]; [| |discriminate].
  - right. by exists a, s1.
  - left. by injection H as ->.
Qed.

Lemma size_t_cases (z : Z) :
  0 <= z <= 2 * SIZE_MAX -> size_t z = z \/ (SIZE_MAX < z /\ size_t z = z - 2 ^ 64).
Proof.
  unfold SIZE_MAX, size_t. intros H.
  destruct (Z_lt_le_dec z (2 ^ 64)) as [Hlt|Hge].
  - left. apply Z.mod_small. lia.
  - right. split; [lia|].
    replace z with (z - 2 ^ 64 + 1 * 2 ^ 64) at 1 by lia.
    rewrite Z.mod_add by lia. apply Z.mod_small. lia.
Qed.

Lemma slots_fit (bytes : Z) :
  is_size_t bytes -> Z.of_nat (Z.to_nat (bytes / sizeof_ptr)) * sizeof_ptr <= SIZE_MAX.
Proof.
  unfold is_size_t, sizeof_ptr. intros H.
  assert (8 * (bytes / 8) <= bytes) by (apply Z.mul_div_le; lia).
  assert (0 <= bytes / 8) by (apply Z.div_pos; lia). lia.
Qed.

Lemma store_frame (i v : Z) (m m' : machine) :
  store i v m = Ret tt m' ->
  0 <= i < Z.of_nat (List.length (arr (obj m))) /\ same_frame (obj m) (obj m').
Proof.
  intros H. apply store_inv in H as [Hi ->]. split; [done|].
  unfold same_frame. cbn. by rewrite length_insert.
Qed.

Lemma store_no_exit (i v : Z) (m m' : machine) : store i v m <> Exit m'.
Proof. unfold store. destruct (in_buffer _ _); exec; discriminate. Qed.

Lemma load_frame (i : Z) (m m' : machine) (v : handle) :
  load i m = Ret v m' -> m' = m.
Proof.
  unfold load. destruct (in_buffer _ _); [|discriminate].
  destruct (_ !! _); [|discriminate]. by intros [= _ <-].
Qed.

Lemma load_no_exit (i : Z) (m m' : machine) : load i m <> Exit m'.
Proof.
  unfold load. destruct (in_buffer _ _); [|discriminate].
  destruct (_ !! _); discriminate.
Qed.

Lemma memmove_frame (dst src bytes : Z) (m m' : machine) :
  0 <= bytes ->
  memmove dst src bytes m = Ret tt m' -> same_frame (obj m) (obj m').
Proof.
  intros Hb. destruct m as [[a c cap] e]. unfold memmove. cbn [obj arr]. cbv zeta.
  destruct (_ && _ && _ && _) eqn:E; [|discriminate].
  exec. intros [= <-].
  apply andb_prop in E as [E Hd]. apply andb_prop in E as [E Hs].
  apply andb_prop in E as [Hs0 Hd0].
  apply Z.leb_le in Hd, Hs, Hs0, Hd0.
  unfold sizeof_ptr in *.
  assert (Hc : 0 <= bytes / 8) by (apply Z.div_pos; lia).
  unfold same_frame. cbn. split; [|done]. len.
Qed.

Lemma memmove_no_exit (dst src bytes : Z) (m m' : machine) :
  memmove dst src bytes m <> Exit m'.
Proof. unfold memmove. cbv zeta. destruct (_ && _ && _ && _); exec; discriminate. Qed.

Lemma same_frame_trans (l1 l2 l3 : ArrayList) :
  same_frame l1 l2 -> same_frame l2 l3 -> same_frame l1 l3.
Proof. unfold same_frame. intros (? & ? & ?) (? & ? & ?). repeat split; congruence. Qed.

Lemma shift_left_frame (k : nat) : forall (i : Z) (m m' : machine),
  shift_left k i m = Ret tt m' -> same_frame (obj m) (obj m').
Proof.
  induction k as [|k IH]; intros i m m' H.
  - injection H as <-. by unfold same_frame.
  - cbn [shift_left] in H.
    apply bind_ret_inv in H as (v & m1 & Hload & H).
    apply load_frame in Hload as ->.
    apply bind_ret_inv in H as ([] & m2 & Hstore & H).
    apply store_frame in Hstore as [_ Hf]. apply IH in H.
    by apply (same_frame_trans _ (obj m2)).
Qed.

Lemma shift_left_no_exit (k : nat) : forall (i : Z) (m m' : machine),
  shift_left k i m <> Exit m'.
Proof.
  induction k as [|k IH]; intros i m m' H.
  - discriminate.
  - cbn [shift_left] in H.
    apply bind_exit_inv in H as [H|(v & m1 & _ & H)]; [by apply load_no_exit in H|].
    apply bind_exit_inv in H as [H|([] & m2 & _ & H)]; [by apply store_no_exit in H|].
    by apply IH in H.
Qed.

Section Invariant.

Variable grant : nat -> Z -> bool.
Variable junk : nat -> nat -> handle.

Lemma init_count_inv (len : Z) (e e' : env) (l : ArrayList) :
  is_size_t len -> init grant len e = Ret l e' -> count_inv l.
Proof.
  intros Hl. rewrite init_eq by done. cbv zeta.
  destruct (grant (allocs e) sizeof_ArrayList); [|discriminate].
  destruct (Z.eqb_spec len SIZE_MAX) as [->|Hne].
  { destruct (grant _ 0); discriminate. }
  destruct (Z.ltb_spec SIZE_MAX ((len + 1) * sizeof_ptr)) as [|Hfit]; [discriminate|].
  destruct (grant (S (allocs e)) _); [|discriminate].
  intros [= <- <-]. unfold count_inv. cbn. rewrite length_replicate.
  unfold is_size_t in Hl. repeat split; lia.
Qed.

Lemma resize_inv (size : Z) (m m' : machine) :
  count_inv (obj m) -> is_size_t size ->
  resize grant junk size m = Ret tt m' ->
  count_inv (obj m') /\ n (obj m') = n (obj m)
  /\ (obj m' = obj m \/ n (obj m) < length (obj m') /\ length (obj m') = size).
Proof.
  intros (Hn & Hl & Hb) Hs. rewrite resize_eq.
  destruct (Z.leb_spec size (n (obj m))) as [Hle|Hlt].
  - intros [= <-]. split; [done|]. split; [done|]. by left.
  - cbv zeta. destruct (grant _ _); [|discriminate]. intros [= <-].
    unfold is_size_t in Hs. cbn.
    split; [|split; [done|right; lia]].
    unfold count_inv. cbn. rewrite length_resized.
    split; [lia|]. split; [lia|]. apply slots_fit, size_t_range.
Qed.

Lemma resize_exit (size : Z) (m m' : machine) :
  resize grant junk size m = Exit m' -> obj m' = obj m.
Proof.
  rewrite resize_eq. destruct (size <=? n (obj m)); [discriminate|].
  cbv zeta. destruct (grant _ _); [discriminate|]. by intros [= <-].
Qed.

Lemma grow_inv (m m1 : machine) :
  count_inv (obj m) -> grow grant junk m = Ret tt m1 ->
  count_inv (obj m1) /\ n (obj m1) = n (obj m)
  /\ (n (obj m1) < length (obj m1) \/ 2 ^ 63 <= n (obj m1)).
Proof.
  intros Hinv. unfold grow, bind, get.
  destruct (Z.eqb_spec (n (obj m)) (length (obj m))) as [Hfull|Hroom].
  - intros H.
    destruct (resize_inv _ m m1 Hinv (size_t_range _) H) as (Hinv1 & Hn1 & Hcase).
    split; [done|]. split; [done|].
    destruct Hinv as (Hn & Hl & _). rewrite Hn1.
    destruct Hcase as [Heq|[Hlt Hsz]]; [|by left].
    destruct (Z_lt_le_dec (n (obj m)) (2 ^ 63)) as [Hsmall|?]; [|by right].
    exfalso. revert H. rewrite resize_eq.
    rewrite size_t_small by (unfold is_size_t, SIZE_MAX in *; lia).
    destruct (Z.leb_spec (length (obj m) * 2 + 1) (n (obj m))) as [?|_]; [lia|].
    cbv zeta. destruct (grant _ _); [|discriminate].
    intros [= H]. apply (f_equal (fun s => length (obj s))) in H. cbn in H.
    rewrite Heq in H. lia.
  - intros [= <-]. split; [done|]. split; [done|].
    destruct Hinv as (Hn & _). left. lia.
Qed.

Lemma grow_exit (m m' : machine) :
  grow grant junk m = Exit m' -> obj m' = obj m.
Proof.
  unfold grow, bind, get. destruct (n (obj m) =? length (obj m)); [|discriminate].
  apply resize_exit.
Qed.

(** The common end of [push_back] and [insert_at]: the count goes up by one
    and the terminator is written behind it. *)
Lemma raise_count_inv (m m' : machine) :
  count_inv (obj m) ->
  n (obj m) < length (obj m) \/ 2 ^ 63 <= n (obj m) ->
  (run set_n (size_t (n (obj m) + 1)); do l <- get; store (n l) NULL) m = Ret tt m' ->
  count_inv (obj m').
Proof.
  destruct m as [[a c cap] e], m' as [[a' c' cap'] e'].
  unfold count_inv. cbn. intros (Hn & Hl & Hb) Hroom. exec. intros H.
  apply store_frame in H as [Hi (Hlen & Hn' & Hl')]. cbn in *.
  rewrite Hlen, Hn', Hl'. clear Hlen Hn' Hl'.
  unfold sizeof_ptr in *.
  destruct (size_t_cases (c + 1)) as [E|[Hbig E]];
    [unfold SIZE_MAX in *; lia | rewrite E in *..]; unfold SIZE_MAX in *;
    repeat split; lia.
Qed.

Lemma push_back_inv (x : handle) (m m' : machine) :
  count_inv (obj m) -> push_back grant junk x m = Ret tt m' -> count_inv (obj m').
Proof.
  intros Hinv. rewrite push_back_split. intros H.
  apply bind_ret_inv in H as ([] & m1 & Hgrow & H).
  destruct (grow_inv m m1 Hinv Hgrow) as (Hinv1 & _ & Hroom).
  unfold append_slot in H. unfold bind at 1 in H. unfold get at 1 in H.
  apply bind_ret_inv in H as ([] & m2 & Hstore & H).
  apply store_frame in Hstore as [_ (Hlen & Hn & Hl)].
  apply (raise_count_inv m2); [| by rewrite Hn, Hl | by rewrite Hn].
  unfold count_inv. by rewrite Hlen, Hn, Hl.
Qed.

Lemma append_slot_no_exit (x : handle) (m m' : machine) : append_slot x m <> Exit m'.
Proof.
  unfold append_slot. unfold bind at 1. unfold get at 1. intros H.
  apply bind_exit_inv in H as [H|([] & m1 & _ & H)]; [by apply store_no_exit in H|].
  revert H. exec. apply store_no_exit.
Qed.

Lemma push_back_exit (x : handle) (m m' : machine) :
  push_back grant junk x m = Exit m' -> obj m' = obj m.
Proof.
  rewrite push_back_split. intros H.
  apply bind_exit_inv in H as [H|([] & m1 & _ & H)]; [by apply grow_exit|].
  by apply append_slot_no_exit in H.
Qed.

Lemma insert_at_inv (x : handle) (i : Z) (m m' : machine) :
  count_inv (obj m) -> is_size_t i ->
  insert_at grant junk x i m = Ret tt m' -> count_inv (obj m').
Proof.
  intros Hinv Hi. rewrite insert_at_split.
  destruct (Z.ltb_spec (n (obj m)) i) as [|Hle]; [discriminate|]. intros H.
  apply bind_ret_inv in H as ([] & m1 & Hgrow & H).
  destruct (grow_inv m m1 Hinv Hgrow) as (Hinv1 & _ & Hroom).
  unfold insert_slot in H. unfold bind at 1 in H. unfold get at 1 in H.
  apply bind_ret_inv in H as ([] & m2 & Hmove & H).
  apply memmove_frame in Hmove as (Hlen2 & Hn2 & Hl2);
    [|pose proof (size_t_range (size_t (n (obj m1) - i) * sizeof_ptr)) as [? _]; done].
  apply bind_ret_inv in H as ([] & m3 & Hstore & H).
  apply store_frame in Hstore as [_ (Hlen3 & Hn3 & Hl3)].
  rewrite <- Hn2, <- Hn3 in H.
  apply (raise_count_inv m3); [| by rewrite Hn3, Hl3, Hn2, Hl2 | done].
  unfold count_inv. by rewrite Hlen3, Hn3, Hl3, Hlen2, Hn2, Hl2.
Qed.

Lemma insert_slot_no_exit (x : handle) (i : Z) (m m' : machine) :
  insert_slot x i m <> Exit m'.
Proof.
  unfold insert_slot. unfold bind at 1. unfold get at 1. intros H.
  apply bind_exit_inv in H as [H|([] & m1 & _ & H)]; [by apply memmove_no_exit in H|].
  apply bind_exit_inv in H as [H|([] & m2 & _ & H)]; [by apply store_no_exit in H|].
  revert H. exec. apply store_no_exit.
Qed.

Lemma insert_at_exit (x : handle) (i : Z) (m m' : machine) :
  insert_at grant junk x i m = Exit m' -> obj m' = obj m.
Proof.
  rewrite insert_at_split. destruct (n (obj m) <? i).
  - exec. by intros [= <-].
  - intros H.
    apply bind_exit_inv in H as [H|([] & m1 & _ & H)]; [by apply grow_exit|].
    by apply insert_slot_no_exit in H.
Qed.

Lemma pop_back_inv (m m' : machine) :
  count_inv (obj m) -> pop_back m = Ret tt m' -> count_inv (obj m').
Proof.
  destruct m as [[a c cap] e], m' as [[a' c' cap'] e'].
  unfold count_inv. cbn. intros (Hn & Hl & Hb). unfold pop_back. exec.
  destruct (Z.eqb_spec c 0) as [->|Hne].
  - by intros [= <- <- <-].
  - intros H. apply store_frame in H as [_ (Hlen & Hn' & Hl')]. cbn in *.
    rewrite Hlen, Hn', Hl'.
    rewrite size_t_small by (unfold is_size_t; lia). repeat split; lia.
Qed.

Lemma pop_back_no_exit (m m' : machine) : pop_back m <> Exit m'.
Proof.
  unfold pop_back. exec. destruct (_ =? 0); [discriminate|]. apply store_no_exit.
Qed.

Lemma remove_at_inv (i : Z) (m m' : machine) :
  count_inv (obj m) -> is_size_t i ->
  remove_at i m = Ret tt m' -> count_inv (obj m').
Proof.
  intros (Hn & Hl & Hb) Hi. unfold remove_at. unfold bind at 1. unfold get at 1.
  destruct (Z.leb_spec (n (obj m)) i) as [|Hlt]; [discriminate|]. intros H.
  apply bind_ret_inv in H as ([] & m1 & Hshift & H).
  apply shift_left_frame in Hshift as (Hlen1 & Hn1 & Hl1).
  destruct m1 as [[a1 c1 cap1] e1], m' as [[a' c' cap'] e']. cbn in *.
  revert H. exec. intros H.
  apply store_frame in H as [_ (Hlen & Hn' & Hl')]. cbn in *.
  unfold count_inv. cbn. rewrite Hlen, Hn', Hl', Hlen1, Hn1, Hl1.
  unfold is_size_t in Hi.
  rewrite size_t_small by (unfold is_size_t; lia). repeat split; lia.
Qed.

Lemma remove_at_exit (i : Z) (m m' : machine) :
  remove_at i m = Exit m' -> obj m' = obj m.
Proof.
  unfold remove_at. unfold bind at 1. unfold get at 1.
  destruct (n (obj m) <=? i).
  - exec. by intros [= <-].
  - intros H.
    apply bind_exit_inv in H as [H|([] & m1 & _ & H)]; [by apply shift_left_no_exit in H|].
    revert H. exec. intros H. by apply store_no_exit in H.
Qed.

Lemma shrink_to_fit_inv (m m' : machine) :
  count_inv (obj m) -> shrink_to_fit grant junk m = Ret tt m' -> count_inv (obj m').
Proof.
  intros (Hn & Hl & Hb). rewrite shrink_to_fit_eq.
  destruct (n (obj m) =? length (obj m)); [by intros [= <-]|].
  cbv zeta. destruct (grant _ _); [|discriminate]. intros [= <-].
  unfold count_inv. cbn. rewrite length_resized.
  split; [lia|]. split; [lia|]. apply slots_fit, size_t_range.
Qed.

Lemma shrink_to_fit_exit (m m' : machine) :
  shrink_to_fit grant junk m = Exit m' -> obj m' = obj m.
Proof.
  rewrite shrink_to_fit_eq. destruct (n (obj m) =? length (obj m)); [discriminate|].
  cbv zeta. destruct (grant _ _); [discriminate|]. by intros [= <-].
Qed.

Lemma call_inv (o : op) (m m' : machine) :
  count_inv (obj m) -> args_ok o ->
  call grant junk o m = Ret tt m' -> count_inv (obj m').
Proof.
  intros Hinv Hargs. destruct o as [x| |x i|i|s|]; cbn [call args_ok] in *.
  - by apply push_back_inv.
  - by apply pop_back_inv.
  - by apply insert_at_inv.
  - by apply remove_at_inv.
  - intros H. by apply (resize_inv s m m' Hinv Hargs) in H as [? _].
  - by apply shrink_to_fit_inv.
Qed.

(** A call that ends the process leaves the list as it found it. *)
Lemma call_exit (o : op) (m m' : machine) :
  call grant junk o m = Exit m' -> obj m' = obj m.
Proof.
  destruct o as [x| |x i|i|s|]; cbn [call].
  - apply push_back_exit.
  - intros H. by apply pop_back_no_exit in H.
  - apply insert_at_exit.
  - apply remove_at_exit.
  - apply resize_exit.
  - apply shrink_to_fit_exit.
Qed.

Lemma reachable_count_inv (m : machine) :
  reachable grant junk m -> count_inv (obj m).
Proof.
  induction 1 as [len e e' l Hlen Hinit | o m m' _ IH Hargs Hcall].
  - by apply (init_count_inv len e e').
  - by apply (call_inv o m m').
Qed.

End Invariant.

(** C1. In every state a program can reach by [init] followed by any
    sequence of [push_back], [pop_back], [insert_at], [remove_at], [resize]
    and [shrink_to_fit] calls, the count is at most the capacity; and a call
    that ends the process leaves behind the list it was given, so the
    invariant holds there too. *)
Theorem count_le_capacity (grant : nat -> Z -> bool) (junk : nat -> nat -> handle)
    (m : machine) :
  reachable grant junk m ->
  0 <= n (obj m) <= length (obj m)
  /\ forall (o : op) (m' : machine),
       call grant junk o m = Exit m' -> 0 <= n (obj m') <= length (obj m').
Proof.
  intros Hreach. apply reachable_count_inv in Hreach as (Hn & _).
  split; [done|]. intros o m' Hexit.
  apply call_exit in Hexit. by rewrite Hexit.
Qed.

Lemma list_full_reachable : reachable grant_all junk_pattern list_full.
Proof.
  apply (reach_call _ _ _ (PushBack 20)
           (mkMachine (mkArrayList [10; NULL; NULL] 1 2) env2)); [|done|reflexivity].
  apply (reach_call _ _ _ (PushBack 10) list_empty); [|done|reflexivity].
  apply (reach_init _ _ _ 2 env0 env2); [in_range | reflexivity].
Qed.

Lemma count_le_capacity_witness :
  reachable grant_all junk_pattern list_full
  /\ 0 <= n (obj list_full) <= length (obj list_full).
Proof.
  split; [exact list_full_reachable|].
  apply (count_le_capacity grant_all junk_pattern list_full list_full_reachable).
Defined.

(** ** Explicit capacity *)

Section Resize.

Variable grant : nat -> Z -> bool.
Variable junk : nat -> nat -> handle.

(** [resize] with a capacity whose buffer size fits [size_t]: nothing
    happens at or below the count; above it the capacity becomes the
    requested one and count and elements stay (or the allocator refuses and
    the process ends with the list untouched). *)
Lemma resize_in_range (size : Z) (m : machine) :
  wf (obj m) -> is_size_t size -> (size + 1) * sizeof_ptr <= SIZE_MAX ->
  (size <= n (obj m) -> resize grant junk size m = Ret tt m)
  /\ (n (obj m) < size ->
      (grant (allocs (sys m)) ((size + 1) * sizeof_ptr) = true ->
       exists m', resize grant junk size m = Ret tt m'
         /\ length (obj m') = size
         /\ n (obj m') = n (obj m)
         /\ elements (obj m') = elements (obj m)
         /\ terminated_buffer (obj m')
         /\ (sentinel (obj m) -> sentinel (obj m'))
         /\ stderr (sys m') = stderr (sys m))
      /\ (grant (allocs (sys m)) ((size + 1) * sizeof_ptr) = false ->
          exists m', resize grant junk size m = Exit m'
            /\ obj m' = obj m
            /\ stderr (sys m') = stderr (sys m) ++ [report OutOfMemory "resize"])).
Proof.
  intros Hwf Hs Hfit. rewrite resize_eq. split.
  - intros Hle. by rewrite (proj2 (Z.leb_le _ _) Hle).
  - intros Hlt. destruct (Z.leb_spec size (n (obj m))) as [?|_]; [lia|]. cbv zeta.
    rewrite size_t_small by (unfold_bounds; lia).
    split; intros ->.
    + eexists. split; [reflexivity|].
      destruct m as [[a c cap] [err k]]. unfold_bounds. unfold elements, sentinel.
      cbn in *. destruct Hwf as (Hn & Hb & Hp). rewrite Z.div_mul by lia.
      repeat split.
      * apply take_resized; lia.
      * rewrite length_resized. lia.
      * intros Hsent. rewrite lookup_resized by lia. done.
    + eexists. split; [reflexivity|]. done.
Qed.

End Resize.

(** C7. [resize] multiplies the requested capacity plus one by the slot size
    in [size_t] without a check.  On the full list [10, 20] (capacity 2),
    [resize(2^61)] requests [(2^61 + 1) * 8 mod 2^64 = 8] bytes: the call
    returns with the capacity field set to [2^61] over a buffer of a single
    slot; the element at index 1 and the terminator slot are gone.  The claim
    (count and all elements unchanged for every requested capacity) fails
    here; [resize_in_range] shows it holds whenever the byte count fits. *)
Theorem resize_overflow_truncates_buffer :
  wf (obj list_full) /\ sentinel (obj list_full)
  /\ reachable grant_all junk_pattern list_full
  /\ is_size_t (2 ^ 61)
  /\ size_t ((2 ^ 61 + 1) * sizeof_ptr) = 8
  /\ resize grant_all junk_pattern (2 ^ 61) list_full
     = Ret tt (mkMachine (mkArrayList [10] 2 (2 ^ 61)) (mkEnv [] 3))
  /\ elements (obj list_full) = [10; 20]
  /\ elements (mkArrayList [10] 2 (2 ^ 61)) = [10]
  /\ ~ terminated_buffer (mkArrayList [10] 2 (2 ^ 61))
  /\ ~ sentinel (mkArrayList [10] 2 (2 ^ 61)).
Proof.
  split; [in_range|]. split; [reflexivity|]. split; [exact list_full_reachable|].
  split; [in_range|]. split; [reflexivity|]. split; [reflexivity|].
  split; [reflexivity|]. split; [reflexivity|].
  split; [unfold terminated_buffer; cbn; lia | unfold sentinel; cbn; discriminate].
Qed.

(** ** The terminator slot *)

Section Terminator.

Variable grant : nat -> Z -> bool.
Variable junk : nat -> nat -> handle.
Hypothesis grant_bounded : bounded grant.

Lemma insert_at_wf (x : handle) (i : Z) (m m' : machine) :
  wf (obj m) -> is_size_t i ->
  insert_at grant junk x i m = Ret tt m' ->
  wf (obj m') /\ sentinel (obj m').
Proof.
  intros Hwf Hi E.
  destruct (Z_lt_le_dec (n (obj m)) i) as [Hout|Hin].
  { rewrite insert_at_out_of_range in E by done. discriminate. }
  assert (Hi' : 0 <= i <= n (obj m)) by (unfold is_size_t in Hi; lia).
  destruct (decide (starved grant m)) as [Hs|Hs].
  { destruct (insert_at_starved grant junk x i m Hwf Hi' Hs) as (m1 & E1 & _).
    rewrite E1 in E. discriminate. }
  assert (Hg : n (obj m) <> length (obj m)
               \/ grant (allocs (sys m)) (growth_request (obj m)) = true).
  { unfold starved in Hs.
    destruct (decide (n (obj m) = length (obj m))); [|by left].
    right. destruct (grant _ _); [done|]. exfalso. by apply Hs. }
  destruct (insert_at_ok grant junk x i m Hwf Hi' Hg)
    as (m1 & E1 & Hn & _ & Hlen & Hbuf & Hsent & _).
  rewrite E1 in E. injection E as <-. split; [|done].
  split; [|split; [done|]]; rewrite ?Hn, Hlen; unfold grown_length;
    destruct (Z.eqb_spec (n (obj m)) (length (obj m))) as [Hfull|Hroom];
    unfold_bounds; try lia.
  destruct Hg as [?|Hg]; [done|]. apply grant_bounded in Hg.
  unfold growth_request in Hg. unfold_bounds. lia.
Qed.

Lemma pop_back_wf (m m' : machine) :
  wf (obj m) -> sentinel (obj m) ->
  pop_back m = Ret tt m' ->
  wf (obj m') /\ sentinel (obj m').
Proof.
  intros Hwf Hsent.
  destruct (decide (n (obj m) = 0)) as [Hz|Hnz].
  - rewrite pop_back_empty by done. by intros [= <-].
  - rewrite pop_back_nonempty by (unfold_bounds; lia). intros [= <-].
    destruct m as [[a c cap] e]. unfold_bounds. unfold sentinel. cbn in *.
    destruct Hwf as (Hn & Hb & Hp). split.
    + rewrite length_insert. lia.
    + apply list_lookup_insert_eq. lia.
Qed.

Lemma remove_at_wf (i : Z) (m m' : machine) :
  wf (obj m) -> is_size_t i ->
  remove_at i m = Ret tt m' ->
  wf (obj m') /\ sentinel (obj m').
Proof.
  intros Hwf Hi.
  destruct (Z_lt_le_dec i (n (obj m))) as [Hin|Hout].
  - rewrite remove_at_in_range by (unfold is_size_t in Hi; done || lia).
    intros [= <-].
    destruct m as [[a c cap] e]. unfold_bounds. unfold sentinel. cbn in *.
    destruct Hwf as (Hn & Hb & Hp). split.
    + rewrite length_shift_left_buffer by lia. lia.
    + replace (Z.to_nat (c - 1)) with (pred (Z.to_nat c)) by lia.
      apply lookup_shift_left_buffer_end; lia.
  - rewrite remove_at_out_of_range by done. discriminate.
Qed.

Lemma resize_wf (size : Z) (m m' : machine) :
  wf (obj m) -> sentinel (obj m) ->
  is_size_t size -> (size + 1) * sizeof_ptr <= SIZE_MAX ->
  resize grant junk size m = Ret tt m' ->
  wf (obj m') /\ sentinel (obj m').
Proof.
  intros Hwf Hsent Hs Hfit E.
  destruct (resize_in_range grant junk size m Hwf Hs Hfit) as [Hnoop Hgrow].
  destruct (Z_le_gt_dec size (n (obj m))) as [Hle|Hgt].
  - rewrite Hnoop in E by done. by injection E as <-.
  - destruct Hgrow as [Hok Hfail]; [lia|].
    destruct (grant (allocs (sys m)) ((size + 1) * sizeof_ptr)) eqn:Hg.
    + destruct Hok as (m1 & E1 & Hlen & Hn & _ & Hbuf & Hsent1 & _); [done|].
      rewrite E1 in E. injection E as <-. split; [|by apply Hsent1].
      apply grant_bounded in Hg. unfold_bounds. rewrite Hlen, Hn.
      repeat split; try done; lia.
    + destruct Hfail as (m1 & E1 & _); [done|]. rewrite E1 in E. discriminate.
Qed.

Lemma shrink_to_fit_wf (m m' : machine) :
  wf (obj m) -> sentinel (obj m) ->
  shrink_to_fit grant junk m = Ret tt m' ->
  wf (obj m') /\ sentinel (obj m').
Proof.
  intros Hwf Hsent. rewrite shrink_to_fit_eq.
  destruct (n (obj m) =? length (obj m)); [by intros [= <-]|].
  cbv zeta. rewrite size_t_small by (unfold_bounds; lia).
  destruct (grant _ _); [|discriminate]. intros [= <-].
  destruct m as [[a c cap] [err k]]. unfold_bounds. unfold sentinel. cbn in *.
  destruct Hwf as (Hn & Hb & Hp). rewrite Z.div_mul by lia. split.
  - rewrite length_resized. lia.
  - rewrite lookup_resized by lia. done.
Qed.

Lemma call_wf (o : op) (m m' : machine) :
  wf (obj m) -> sentinel (obj m) -> args_in_range o ->
  call grant junk o m = Ret tt m' ->
  wf (obj m') /\ sentinel (obj m').
Proof.
  intros Hwf Hsent Hargs. destruct o as [x| |x i|i|s|]; cbn [call args_in_range args_ok] in *.
  - intros E. by destruct (push_back_wf grant junk x m m' grant_bounded Hwf E) as (? & ? & _).
  - by apply pop_back_wf.
  - by apply insert_at_wf.
  - by apply remove_at_wf.
  - destruct Hargs. by apply resize_wf.
  - by apply shrink_to_fit_wf.
Qed.

(** As long as no [resize] argument overflows the byte count, every
    reachable list is in range and its slot at index [n] holds [NULL]. *)
Lemma representation_invariant (m : machine) :
  reachable_by grant junk args_in_range m ->
  wf (obj m) /\ sentinel (obj m).
Proof.
  induction 1 as [len e e' l Hlen Hinit | o m m' _ [IHwf IHs] Hargs Hcall].
  - destruct (init_wf grant len e e' l grant_bounded Hlen Hinit) as (? & ? & _). done.
  - by apply (call_wf o m m').
Qed.

End Terminator.

(** C10. The terminator slot is not an invariant of every reachable state:
    one defect, the unchecked multiplication in [resize], breaks it.  After
    [init(0)] and [resize(2^61)] the list is reachable, its buffer has one
    slot while the capacity is [2^61], and the next [push_back] writes the
    terminator outside the buffer.  Along calls whose [resize] arguments
    keep the byte count within [size_t], the buffer does hold one slot beyond
    the capacity and slot [n] holds [NULL] ([representation_invariant]). *)
Theorem terminator_lost_after_oversized_resize :
  init grant_all 0 env0 = Ret (mkArrayList [NULL] 0 0) env2
  /\ resize grant_all junk_pattern (2 ^ 61) (mkMachine (mkArrayList [NULL] 0 0) env2)
     = Ret tt (mkMachine (mkArrayList [NULL] 0 (2 ^ 61)) (mkEnv [] 3))
  /\ reachable grant_all junk_pattern
       (mkMachine (mkArrayList [NULL] 0 (2 ^ 61)) (mkEnv [] 3))
  /\ ~ terminated_buffer (mkArrayList [NULL] 0 (2 ^ 61))
  /\ push_back grant_all junk_pattern 7
       (mkMachine (mkArrayList [NULL] 0 (2 ^ 61)) (mkEnv [] 3)) = Undef.
Proof.
  split; [reflexivity|]. split; [reflexivity|]. split.
  - apply (reach_call _ _ _ (Resize (2 ^ 61)) (mkMachine (mkArrayList [NULL] 0 0) env2));
      [|cbn [args_ok]; in_range|reflexivity].
    apply (reach_init _ _ _ 0 env0 env2); [in_range | reflexivity].
  - split; [unfold terminated_buffer; cbn; lia | reflexivity].
Qed.

(** * Scenarios *)

(** [main]: [init(5)], three [push_back], then the count and the first
    element are read. *)
Example scenario_main :
  program grant_all 5 (push_all grant_all junk_pattern [10; 20; 30]) env0
  = Ret (mkArrayList [10; 20; 30; NULL; NULL; NULL] 3 5) env2
  /\ get_number_of_elements list_with_room = Ret 3 list_with_room
  /\ get_length list_with_room = Ret 5 list_with_room
  /\ load 0 list_with_room = Ret 10 list_with_room
  /\ load 2 list_with_room = Ret 30 list_with_room.
Proof. repeat split. Qed.

Example scenario_insert_into_empty :
  program grant_all 0 (insert_at grant_all junk_pattern 7 0) env0
  = Ret (mkArrayList [7; NULL] 1 1) (mkEnv [] 3).
Proof. reflexivity. Qed.

Example scenario_remove_first :
  program grant_all 3
    (run push_back grant_all junk_pattern 1;
     run push_back grant_all junk_pattern 2;
     remove_at 0) env0
  = Ret (mkArrayList [2; NULL; NULL; NULL] 1 3) env2.
Proof. reflexivity. Qed.

Example scenario_pop_empty :
  program grant_all 2 pop_back env0
  = Ret (mkArrayList [NULL; NULL; NULL] 0 2)
        (mkEnv [report EmptyContainer "pop_back"] 2).
Proof. reflexivity. Qed.

(** * Further properties of the code *)

(** ** Creation *)



(** ** What a call leaves alone *)

Lemma store_keeps (i v : Z) (m m' : machine) :
  store i v m = Ret tt m' -> same_frame (obj m) (obj m') /\ sys m' = sys m.
Proof.
  intros H. split; [by apply store_frame in H as [_ ?]|].
  by apply store_inv in H as [_ ->].
Qed.

Lemma memmove_keeps (dst src bytes : Z) (m m' : machine) :
  0 <= bytes ->
  memmove dst src bytes m = Ret tt m' -> same_frame (obj m) (obj m') /\ sys m' = sys m.
Proof.
  intros Hb H. split; [by apply (memmove_frame dst src bytes)|].
  revert H. unfold memmove. cbv zeta.
  destruct (_ && _ && _ && _); [|discriminate]. exec. by intros [= <-].
Qed.

Lemma shift_left_keeps (k : nat) : forall (i : Z) (m m' : machine),
  shift_left k i m = Ret tt m' -> same_frame (obj m) (obj m') /\ sys m' = sys m.
Proof.
  intros i m m' H. split; [by apply (shift_left_frame k i)|].
  revert i m H. induction k as [|k IH]; intros i m H.
  - by injection H as <-.
  - cbn [shift_left] in H.
    apply bind_ret_inv in H as (v & m1 & Hload & H).
    apply load_frame in Hload as ->.
    apply bind_ret_inv in H as ([] & m2 & Hstore & H).
    apply store_keeps in Hstore as [_ Hsys]. apply IH in H. congruence.
Qed.

Lemma raise_count_keeps (c : Z) (m m' : machine) :
  (run set_n c; do l <- get; store (n l) NULL) m = Ret tt m' ->
  List.length (arr (obj m')) = List.length (arr (obj m))
  /\ length (obj m') = length (obj m) /\ sys m' = sys m.
Proof.
  destruct m as [[a c0 cap] e]. exec. intros H.
  apply store_keeps in H as [(Hlen & _ & Hl) Hsys]. by cbn in *.
Qed.

Section Frames.

Variable grant : nat -> Z -> bool.
Variable junk : nat -> nat -> handle.

Lemma resize_keeps (size : Z) (m m' : machine) :
  resize grant junk size m = Ret tt m' ->
  n (obj m') = n (obj m)
  /\ stderr (sys m') = stderr (sys m)
  /\ (m' = m
      \/ n (obj m) < size /\ length (obj m') = size
         /\ allocs (sys m') = S (allocs (sys m))).
Proof.
  rewrite resize_eq. destruct (Z.leb_spec size (n (obj m))) as [Hle|Hlt].
  - intros [= <-]. split; [|split]; [done | done | by left].
  - cbv zeta. destruct (grant _ _); [|discriminate]. intros [= <-]. cbn.
    split; [|split]; [done | done | by right].
Qed.

Lemma grow_keeps (m m1 : machine) :
  grow grant junk m = Ret tt m1 ->
  n (obj m1) = n (obj m)
  /\ length (obj m) <= length (obj m1)
  /\ stderr (sys m1) = stderr (sys m)
  /\ (m1 = m \/ n (obj m) = length (obj m) /\ allocs (sys m1) = S (allocs (sys m))).
Proof.
  unfold grow, bind, get.
  destruct (Z.eqb_spec (n (obj m)) (length (obj m))) as [Hfull|Hroom].
  - intros H. apply resize_keeps in H as (Hn & Herr & [->|(Hlt & Hlen & Hal)]).
    + repeat split; first [done | lia | by left].
    + repeat split; first [done | lia | by right].
  - intros [= <-]. repeat split; first [done | lia | by left].
Qed.

Lemma push_back_keeps (x : handle) (m m' : machine) :
  push_back grant junk x m = Ret tt m' ->
  length (obj m) <= length (obj m')
  /\ stderr (sys m') = stderr (sys m)
  /\ (allocs (sys m') = allocs (sys m)
      /\ length (obj m') = length (obj m)
      /\ List.length (arr (obj m')) = List.length (arr (obj m))
      \/ n (obj m) = length (obj m) /\ allocs (sys m') = S (allocs (sys m))).
Proof.
  rewrite push_back_split. intros H.
  apply bind_ret_inv in H as ([] & m1 & Hgrow & H).
  apply grow_keeps in Hgrow as (Hn1 & Hl1 & Herr1 & Hcase).
  unfold append_slot in H. unfold bind at 1 in H. unfold get at 1 in H.
  apply bind_ret_inv in H as ([] & m2 & Hstore & H).
  apply store_keeps in Hstore as [(Hlen2 & Hn2 & Hl2) Hsys2].
  apply raise_count_keeps in H as (Hlen & Hl & Hsys).
  rewrite Hl, Hl2, Hsys, Hsys2, Hlen, Hlen2.
  split; [done|]. split; [done|].
  destruct Hcase as [->|[Hfull Hal]]; [by left | by right].
Qed.

Lemma insert_at_keeps (x : handle) (i : Z) (m m' : machine) :
  insert_at grant junk x i m = Ret tt m' ->
  length (obj m) <= length (obj m')
  /\ stderr (sys m') = stderr (sys m)
  /\ (allocs (sys m') = allocs (sys m)
      /\ length (obj m') = length (obj m)
      /\ List.length (arr (obj m')) = List.length (arr (obj m))
      \/ n (obj m) = length (obj m) /\ allocs (sys m') = S (allocs (sys m))).
Proof.
  rewrite insert_at_split. destruct (n (obj m) <? i); [discriminate|]. intros H.
  apply bind_ret_inv in H as ([] & m1 & Hgrow & H).
  apply grow_keeps in Hgrow as (Hn1 & Hl1 & Herr1 & Hcase).
  unfold insert_slot in H. unfold bind at 1 in H. unfold get at 1 in H.
  apply bind_ret_inv in H as ([] & m2 & Hmove & H).
  apply memmove_keeps in Hmove as [(Hlen2 & Hn2 & Hl2) Hsys2];
    [|pose proof (size_t_range (size_t (n (obj m1) - i) * sizeof_ptr)) as [? _]; done].
  apply bind_ret_inv in H as ([] & m3 & Hstore & H).
  apply store_keeps in Hstore as [(Hlen3 & Hn3 & Hl3) Hsys3].
  apply raise_count_keeps in H as (Hlen & Hl & Hsys).
  rewrite Hl, Hl3, Hl2, Hsys, Hsys3, Hsys2, Hlen, Hlen3, Hlen2.
  split; [done|]. split; [done|].
  destruct Hcase as [->|[Hfull Hal]]; [by left | by right].
Qed.

Lemma remove_at_keeps (i : Z) (m m' : machine) :
  remove_at i m = Ret tt m' ->
  length (obj m') = length (obj m)
  /\ List.length (arr (obj m')) = List.length (arr (obj m))
  /\ sys m' = sys m.
Proof.
  unfold remove_at. unfold bind at 1. unfold get at 1.
  destruct (n (obj m) <=? i); [discriminate|]. intros H.
  apply bind_ret_inv in H as ([] & m1 & Hshift & H).
  apply shift_left_keeps in Hshift as [(Hlen1 & _ & Hl1) Hsys1].
  unfold bind at 1 in H. unfold get at 1 in H.
  apply raise_count_keeps in H as (Hlen & Hl & Hsys).
  split; [congruence|]. split; congruence.
Qed.

Lemma pop_back_keeps (m m' : machine) :
  pop_back m = Ret tt m' ->
  length (obj m') = length (obj m)
  /\ List.length (arr (obj m')) = List.length (arr (obj m))
  /\ allocs (sys m') = allocs (sys m)
  /\ (n (obj m) <> 0 /\ sys m' = sys m
      \/ n (obj m) = 0 /\ obj m' = obj m
         /\ stderr (sys m') = stderr (sys m) ++ [report EmptyContainer "pop_back"]).
Proof.
  unfold pop_back. unfold bind at 1. unfold get at 1.
  destruct (Z.eqb_spec (n (obj m)) 0) as [Hz|Hnz].
  - exec. intros [= <-]. cbn. split; [|split; [|split]]; [done | done | done |].
    right. by repeat split.
  - intros H. apply raise_count_keeps in H as (Hlen & Hl & Hsys).
    rewrite Hsys. split; [|split; [|split]]; [done | done | done |]. by left.
Qed.

End Frames.

Section Reports.

Variable grant : nat -> Z -> bool.
Variable junk : nat -> nat -> handle.





End Reports.


(** X5. The calls that work on the elements ([push_back], [pop_back],
    [insert_at], [remove_at]) never lower the capacity and make at most one
    allocator request: when they return, either the capacity, the buffer
    size and the number of requests are as before, or the list was full on
    entry, the call was [push_back] or [insert_at], and exactly one request
    was made.  This holds in every state. *)
Theorem element_ops_keep_capacity (grant : nat -> Z -> bool)
    (junk : nat -> nat -> handle) (o : op) (m m' : machine) :
  element_op o ->
  call grant junk o m = Ret tt m' ->
  length (obj m) <= length (obj m')
  /\ (allocs (sys m') = allocs (sys m)
      /\ length (obj m') = length (obj m)
      /\ List.length (arr (obj m')) = List.length (arr (obj m))
      \/ n (obj m) = length (obj m)
         /\ o <> PopBack /\ (forall i, o <> RemoveAt i)
         /\ allocs (sys m') = S (allocs (sys m))).
Proof.
  intros Hop E. destruct o as [x| |x i|i|s|]; cbn [call element_op] in *; try done.
  - apply push_back_keeps in E as (Hle & _ & [?|[Hfull Hal]]); [by split; [|left]|].
    split; [done|]. right. by repeat split.
  - apply pop_back_keeps in E as (Hl & Hlen & Hal & _).
    split; [lia|]. left. by repeat split.
  - apply insert_at_keeps in E as (Hle & _ & [?|[Hfull Hal]]); [by split; [|left]|].
    split; [done|]. right. by repeat split.
  - apply remove_at_keeps in E as (Hl & Hlen & Hsys).
    split; [lia|]. left. rewrite Hsys. by repeat split.
Qed.

Lemma element_ops_keep_capacity_witness :
  element_op (PushBack 77)
  /\ (exists m', call grant_all junk_pattern (PushBack 77) list_full = Ret tt m'
        /\ length (obj list_full) <= length (obj m')
        /\ allocs (sys m') = 3%nat).
Proof.
  split; [exact I|].
  eexists. split; [reflexivity|].
  destruct (element_ops_keep_capacity grant_all junk_pattern (PushBack 77) list_full
              _ I eq_refl) as [Hle Hcase].
  split; [exact Hle|].
  destruct Hcase as [(Hal & Hl & _)|(_ & _ & _ & Hal)]; [|exact Hal].
  vm_compute in Hl. discriminate.
Defined.

(** ** Capacity on request *)

(** X2. On a list in range, [resize(size)] with a capacity whose buffer
    size fits [size_t] does nothing when [size <= n]; otherwise it makes one
    allocator request and, if served, returns with the capacity equal to
    [size], a buffer of [size + 1] slots, and count, elements and terminator
    as before, or, if refused, ends the process with the list untouched.
    The capacity becomes [size] also when that is less than the current
    capacity: [resize] can lower the capacity down to [n + 1]. *)
Theorem resize_sets_capacity (grant : nat -> Z -> bool) (junk : nat -> nat -> handle)
    (size : Z) (m : machine) :
  wf (obj m) -> sentinel (obj m) ->
  is_size_t size -> (size + 1) * sizeof_ptr <= SIZE_MAX ->
  (size <= n (obj m) -> resize grant junk size m = Ret tt m)
  /\ (n (obj m) < size ->
      if grant (allocs (sys m)) ((size + 1) * sizeof_ptr)
      then exists m', resize grant junk size m = Ret tt m'
             /\ length (obj m') = size
             /\ Z.of_nat (List.length (arr (obj m'))) = size + 1
             /\ n (obj m') = n (obj m)
             /\ elements (obj m') = elements (obj m)
             /\ sentinel (obj m')
             /\ sys m' = mkEnv (stderr (sys m)) (S (allocs (sys m)))
             /\ (size < length (obj m) -> length (obj m') < length (obj m))
      else exists m', resize grant junk size m = Exit m'
             /\ obj m' = obj m
             /\ stderr (sys m') = stderr (sys m) ++ [report OutOfMemory "resize"]).
Proof.
  intros Hwf Hsent Hs Hfit.
  destruct (resize_in_range grant junk size m Hwf Hs Hfit) as [Hnoop Hgrow].
  split; [done|]. intros Hlt. destruct (Hgrow Hlt) as [Hok Hfail].
  destruct (grant (allocs (sys m)) ((size + 1) * sizeof_ptr)) eqn:Hg.
  - destruct (Hok eq_refl) as (m' & E & Hlen & Hn & Hel & Hbuf & Hs' & Herr).
    exists m'. unfold terminated_buffer in Hbuf. rewrite Hlen in Hbuf.
    split; [exact E|]. split; [done|]. split; [done|]. split; [done|].
    split; [done|]. split; [by apply Hs'|]. split; [|lia].
    revert E. rewrite resize_eq.
    destruct (Z.leb_spec size (n (obj m))) as [?|_]; [lia|]. cbv zeta.
    rewrite size_t_small by (unfold_bounds; lia). rewrite Hg. by intros [= <-].
  - by apply Hfail.
Qed.

Lemma resize_sets_capacity_witness :
  wf (obj list_with_room) /\ sentinel (obj list_with_room)
  /\ is_size_t 4 /\ (4 + 1) * sizeof_ptr <= SIZE_MAX
  /\ exists m', resize grant_all junk_pattern 4 list_with_room = Ret tt m'
       /\ length (obj m') = 4 /\ elements (obj m') = [10; 20; 30].
Proof.
  assert (Hwf : wf (obj list_with_room)) by in_range.
  assert (Hsent : sentinel (obj list_with_room)) by reflexivity.
  assert (Hs : is_size_t 4) by in_range.
  assert (Hfit : (4 + 1) * sizeof_ptr <= SIZE_MAX) by in_range.
  split; [exact Hwf|]. split; [exact Hsent|]. split; [exact Hs|]. split; [exact Hfit|].
  destruct (resize_sets_capacity grant_all junk_pattern 4 list_with_room
              Hwf Hsent Hs Hfit) as [_ Hgrow].
  assert (Hlt : n (obj list_with_room) < 4) by (cbn; lia).
  apply Hgrow in Hlt. cbn in Hlt.
  destruct Hlt as (m' & E & Hlen & _ & _ & Hel & _).
  exists m'. split; [exact E|]. split; [exact Hlen|]. rewrite Hel. reflexivity.
Defined.

(** ** The representation invariant *)

Lemma list_full_reachable_in_range :
  reachable_by grant_all junk_pattern args_in_range list_full.
Proof.
  apply (reach_call _ _ _ (PushBack 20)
           (mkMachine (mkArrayList [10; NULL; NULL] 1 2) env2)); [|done|reflexivity].
  apply (reach_call _ _ _ (PushBack 10) list_empty); [|done|reflexivity].
  apply (reach_init _ _ _ 2 env0 env2); [in_range | reflexivity].
Qed.

(** X3. With an allocator that hands out no block above [PTRDIFF_MAX]
    bytes, every state reached by [init] and calls whose [resize] arguments
    keep the byte count of the buffer within [size_t] satisfies the
    representation invariant: the count is within the capacity, the buffer
    has exactly [length + 1] slots, the slot at index [n] holds [NULL], and
    there are exactly [n] stored elements. *)
Theorem terminator_invariant (grant : nat -> Z -> bool) (junk : nat -> nat -> handle)
    (m : machine) :
  bounded grant ->
  reachable_by grant junk args_in_range m ->
  0 <= n (obj m) <= length (obj m)
  /\ Z.of_nat (List.length (arr (obj m))) = length (obj m) + 1
  /\ arr (obj m) !! Z.to_nat (n (obj m)) = Some NULL
  /\ Z.of_nat (List.length (elements (obj m))) = n (obj m).
Proof.
  intros Hb Hreach.
  destruct (representation_invariant grant junk Hb m Hreach) as [Hwf Hsent].
  unfold wf, terminated_buffer in Hwf. destruct Hwf as (Hn & Hbuf & _).
  repeat split; try done; try lia.
  unfold elements. rewrite length_take. lia.
Qed.

Lemma terminator_invariant_witness :
  bounded grant_all
  /\ reachable_by grant_all junk_pattern args_in_range list_full
  /\ arr (obj list_full) !! Z.to_nat (n (obj list_full)) = Some NULL.
Proof.
  split; [exact grant_all_bounded|]. split; [exact list_full_reachable_in_range|].
  apply (terminator_invariant grant_all junk_pattern list_full
           grant_all_bounded list_full_reachable_in_range).
Defined.

(** ** [find] as a search through the elements *)

Lemma index_of_app (cmp : handle -> handle -> Z) (x : handle) (l1 l2 : list handle) :
  index_of cmp x (l1 ++ l2) =
  match index_of cmp x l1 with
  | Some i => Some i
  | None => Nat.add (List.length l1) <$> index_of cmp x l2
  end.
Proof.
  induction l1 as [|v l1 IH]; cbn [app index_of List.length].
  - by destruct (index_of cmp x l2).
  - destruct (cmp v x =? 0); [done|]. rewrite IH.
    destruct (index_of cmp x l1); [done|]. by destruct (index_of cmp x l2).
Qed.

Lemma index_of_None (cmp : handle -> handle -> Z) (x : handle) (l : list handle) :
  index_of cmp x l = None <-> forall j v, l !! j = Some v -> cmp v x <> 0.
Proof.
  induction l as [|v l IH]; cbn [index_of].
  - split; [|done]. intros _ j w H. by rewrite lookup_nil in H.
  - destruct (Z.eqb_spec (cmp v x) 0) as [Heq|Hne].
    + split; [done|]. intros H. exfalso. by apply (H 0%nat v).
    + destruct (index_of cmp x l) as [i|].
      * split; [done|]. intros H. cbn. exfalso.
        assert (Hnone : @None nat = None) by done.
        destruct IH as [_ IH]. discriminate IH. intros j w Hj. by apply (H (S j) w).
      * split; [|done]. intros _ [|j] w Hj; cbn in Hj; [congruence|].
        destruct IH as [IH _]. by apply (IH eq_refl j w).
Qed.

Lemma index_of_Some (cmp : handle -> handle -> Z) (x : handle) (l : list handle) (i : nat) :
  index_of cmp x l = Some i ->
  (exists v, l !! i = Some v /\ cmp v x = 0)
  /\ index_of cmp x (take i l) = None.
Proof.
  revert i. induction l as [|v l IH]; intros i; cbn [index_of]; [done|].
  destruct (Z.eqb_spec (cmp v x) 0) as [Heq|Hne].
  - intros [= <-]. split; [by exists v|done].
  - destruct (index_of cmp x l) as [j|] eqn:E; [|done]. intros [= <-].
    destruct (IH j eq_refl) as [Hv Hnone]. split; [done|].
    cbn [take index_of]. destruct (Z.eqb_spec (cmp v x) 0); [done|]. by rewrite Hnone.
Qed.

(** The loop of [find] from slot [i] for [k] rounds, as a search through the
    slots [i .. i+k-1]. *)
Lemma find_from_index_of (cmp : handle -> handle -> Z) (x : handle) (k : nat) :
  forall (i : nat) (m : machine),
  (i + k <= List.length (arr (obj m)))%nat ->
  Z.of_nat (List.length (arr (obj m))) <= PTRDIFF_MAX ->
  find_from cmp x k (Z.of_nat i) m =
  Ret (found (Nat.add i <$> index_of cmp x (take k (drop i (arr (obj m)))))) m.
Proof.
  induction k as [|k IH]; intros i m Hlen Hmax.
  - reflexivity.
  - cbn [find_from]. unfold bind.
    destruct (lookup_lt_is_Some_2 (arr (obj m)) i) as [v Hv]; [lia|].
    rewrite (load_in (Z.of_nat i) m v); [| lia | by rewrite Nat2Z.id].
    rewrite (drop_S _ v i Hv). cbn [take index_of].
    destruct (Z.eqb_spec (cmp v x) 0) as [Heq|Hne].
    + unfold ret, ssize_t. cbn.
      destruct (Z.ltb_spec (Z.of_nat i) (2 ^ 63)) as [_|?];
        [|unfold PTRDIFF_MAX in Hmax; lia].
      do 2 f_equal. lia.
    + rewrite size_t_small by (unfold_bounds; lia).
      replace (Z.of_nat i + 1) with (Z.of_nat (S i)) by lia.
      rewrite IH by (done || lia).
      destruct (index_of cmp x (take k (drop (S i) (arr (obj m))))); cbn; [|done].
      do 2 f_equal. lia.
Qed.

Lemma find_elements (x : handle) (cmp : handle -> handle -> Z) (m : machine) :
  0 <= n (obj m) <= Z.of_nat (List.length (arr (obj m))) ->
  Z.of_nat (List.length (arr (obj m))) <= PTRDIFF_MAX ->
  find x cmp m = Ret (found (index_of cmp x (elements (obj m)))) m.
Proof.
  intros Hn Hmax. unfold find, bind, get.
  pose proof (find_from_index_of cmp x (Z.to_nat (n (obj m))) 0 m) as H.
  change (Z.of_nat 0) with 0 in H. rewrite H by (done || lia).
  rewrite drop_0. unfold elements.
  by destruct (index_of cmp x (take (Z.to_nat (n (obj m))) (arr (obj m)))).
Qed.

(** X6. On a list in range, what [find] returns depends on the stored
    elements alone: it is the position of the first element the comparator
    reports equal to the target, or -1.  Capacity, stale slots behind the
    count and the state of the process play no part, and the list is not
    changed. *)
Theorem find_refines_index_of (x : handle) (cmp : handle -> handle -> Z) (m : machine) :
  wf (obj m) ->
  find x cmp m = Ret (found (index_of cmp x (elements (obj m)))) m.
Proof.
  intros Hwf. apply find_elements; unfold_bounds; lia.
Qed.

Lemma find_refines_index_of_witness :
  wf (obj list_with_room)
  /\ find 30 Z.sub list_with_room = Ret 2 list_with_room.
Proof.
  assert (Hwf : wf (obj list_with_room)) by in_range.
  split; [exact Hwf|].
  rewrite (find_refines_index_of 30 Z.sub list_with_room Hwf). reflexivity.
Defined.

(** ** How the calls compose *)

Lemma shift_right_at_end (a : list handle) (c : nat) (x : handle) :
  shift_right a c c x = <[S c := NULL]> (<[c := x]> a).
Proof.
  unfold shift_right. rewrite Nat.sub_diag, take_0, app_nil_l, take_drop. done.
Qed.

Lemma length_elements (l : ArrayList) :
  0 <= n l <= Z.of_nat (List.length (arr l)) ->
  List.length (elements l) = Z.to_nat (n l).
Proof. intros H. unfold elements. rewrite length_take. lia. Qed.

(** [remove_at] on a list whose buffer fits [size_t]; the capacity may be
    the one a growth has just produced. *)
Lemma remove_at_fits (i : Z) (m : machine) :
  0 <= i < n (obj m) -> n (obj m) <= length (obj m) ->
  terminated_buffer (obj m) -> (length (obj m) + 1) * sizeof_ptr <= SIZE_MAX ->
  exists m', remove_at i m = Ret tt m'
    /\ n (obj m') = n (obj m) - 1
    /\ elements (obj m') =
       take (Z.to_nat i) (elements (obj m)) ++ drop (S (Z.to_nat i)) (elements (obj m))
    /\ length (obj m') = length (obj m)
    /\ terminated_buffer (obj m')
    /\ sentinel (obj m')
    /\ sys m' = sys m.
Proof.
  destruct m as [[a c cap] e]. unfold_bounds. unfold elements, sentinel. cbn.
  intros Hi Hn Hb Hp.
  exists (mkMachine (mkArrayList (shift_left_buffer a (Z.to_nat i) (Z.to_nat c)) (c - 1) cap) e).
  cbn. replace (Z.to_nat (c - 1)) with (pred (Z.to_nat c)) by lia.
  split; [|split; [done|split; [|split; [done|split; [|split; [|done]]]]]].
  - unfold remove_at. exec.
    destruct (Z.leb_spec c i) as [?|_]; [lia|].
    rewrite !(size_t_small (c - 1)) by (unfold_bounds; lia).
    rewrite <- (Z2Nat.id i) at 2 by lia.
    rewrite shift_left_spec by (unfold_bounds; lia).
    rewrite !(size_t_small (c - 1)) by (unfold_bounds; lia).
    rewrite store_in by (cbn; len). cbn.
    unfold shift_left_buffer.
    replace (Z.to_nat (c - 1)) with (pred (Z.to_nat c)) by lia.
    replace (Z.to_nat (c - 1 - i)) with (pred (Z.to_nat c) - Z.to_nat i)%nat by lia.
    replace (Z.to_nat i + (pred (Z.to_nat c) - Z.to_nat i))%nat with (pred (Z.to_nat c)) by lia.
    reflexivity.
  - apply take_shift_left_buffer; lia.
  - rewrite length_shift_left_buffer by lia. lia.
  - apply lookup_shift_left_buffer_end; lia.
Qed.

(** X7. On a list in range, [push_back(x)] and [insert_at(x, n)] have the
    same outcome: the same list, the same process state, and the same
    report when the allocator refuses the growth. *)
Theorem push_back_is_insert_at_end (grant : nat -> Z -> bool)
    (junk : nat -> nat -> handle) (x : handle) (m : machine) :
  wf (obj m) ->
  push_back grant junk x m = insert_at grant junk x (n (obj m)) m.
Proof.
  intros Hwf. rewrite push_back_split, insert_at_split, Z.ltb_irrefl. unfold bind.
  destruct (decide (starved grant m)) as [Hs|Hs].
  - by rewrite grow_starved by done.
  - destruct (grow_ok grant junk m Hwf) as (m1 & -> & Hr & Hn & _).
    { unfold starved in Hs.
      destruct (decide (n (obj m) = length (obj m))); [|by left].
      right. destruct (grant _ _); [done|]. exfalso. by apply Hs. }
    rewrite append_slot_room by done.
    rewrite insert_slot_room; [| done | unfold roomy in Hr; lia].
    by rewrite Hn, shift_right_at_end.
Qed.

Lemma push_back_is_insert_at_end_witness :
  wf (obj list_full)
  /\ push_back grant_all junk_pattern 77 list_full
     = insert_at grant_all junk_pattern 77 2 list_full.
Proof.
  assert (Hwf : wf (obj list_full)) by in_range.
  split; [exact Hwf|].
  apply (push_back_is_insert_at_end grant_all junk_pattern 77 list_full Hwf).
Defined.

(** X8. On a list in range, [insert_at(x, i)] with [i <= n] followed at
    once by [remove_at(i)] returns with the count and the elements as they
    were before; only the capacity may have grown.  (If the list is full and
    the allocator refuses the growth, the process ends with the list
    untouched.) *)
Theorem insert_at_remove_at_roundtrip (grant : nat -> Z -> bool)
    (junk : nat -> nat -> handle) (x : handle) (i : Z) (m : machine) :
  wf (obj m) -> 0 <= i <= n (obj m) ->
  (n (obj m) <> length (obj m)
   \/ grant (allocs (sys m)) (growth_request (obj m)) = true ->
   exists m', (run insert_at grant junk x i; remove_at i) m = Ret tt m'
     /\ n (obj m') = n (obj m)
     /\ elements (obj m') = elements (obj m)
     /\ sentinel (obj m')
     /\ length (obj m') = grown_length (obj m)
     /\ stderr (sys m') = stderr (sys m))
  /\ (starved grant m ->
      exists m', (run insert_at grant junk x i; remove_at i) m = Exit m'
        /\ obj m' = obj m).
Proof.
  intros Hwf Hi. split.
  - intros Hg. unfold bind.
    destruct (insert_at_ok grant junk x i m Hwf Hi Hg)
      as (m1 & -> & Hn1 & Hel1 & Hlen1 & Hbuf1 & _ & Herr1).
    assert (Hgrown : n (obj m) < grown_length (obj m)
                     /\ (grown_length (obj m) + 1) * sizeof_ptr <= SIZE_MAX).
    { unfold grown_length. unfold_bounds.
      destruct (Z.eqb_spec (n (obj m)) (length (obj m))); lia. }
    destruct (remove_at_fits i m1)
      as (m' & -> & Hn' & Hel' & Hlen' & _ & Hsent' & Hsys'); [lia | lia | done | |].
    { rewrite Hlen1. apply Hgrown. }
    exists m'. split; [done|]. split; [lia|]. split; [|split; [done|split; congruence]].
    rewrite Hel', Hel1.
    assert (Hlen : List.length (take (Z.to_nat i) (elements (obj m))) = Z.to_nat i).
    { rewrite length_take, length_elements by (unfold_bounds; lia). lia. }
    rewrite take_app_length' by done.
    replace (S (Z.to_nat i)) with (Z.to_nat i + 1)%nat by lia.
    rewrite drop_app_add' by done. cbn [skipn]. rewrite drop_0.
    apply take_drop.
  - intros Hs. unfold bind.
    destruct (insert_at_starved grant junk x i m Hwf Hi Hs) as (m' & -> & Hobj & _).
    by exists m'.
Qed.

Lemma insert_at_remove_at_roundtrip_witness :
  wf (obj list_full)
  /\ exists m', (run insert_at grant_all junk_pattern 77 1; remove_at 1) list_full = Ret tt m'
       /\ elements (obj m') = [10; 20].
Proof.
  assert (Hwf : wf (obj list_full)) by in_range.
  split; [exact Hwf|].
  destruct (insert_at_remove_at_roundtrip grant_all junk_pattern 77 1 list_full Hwf)
    as [Hok _]; [cbn; lia|].
  destruct Hok as (m' & E & _ & Hel & _); [right; reflexivity|].
  exists m'. split; [exact E|]. rewrite Hel. reflexivity.
Defined.

Lemma shift_left_buffer_at_end (a : list handle) (c : nat) :
  shift_left_buffer a (pred c) c = <[pred c := NULL]> a.
Proof.
  unfold shift_left_buffer. rewrite Nat.sub_diag, take_0, app_nil_l, take_drop. done.
Qed.

(** X13. On a non-empty list in range, [pop_back] and [remove_at(n - 1)]
    have the same outcome: the same list and the same process state. *)
Theorem pop_back_is_remove_at_end (m : machine) :
  wf (obj m) -> n (obj m) <> 0 ->
  pop_back m = remove_at (n (obj m) - 1) m.
Proof.
  intros Hwf Hne.
  rewrite pop_back_nonempty by (unfold_bounds; lia).
  rewrite remove_at_in_range by (done || unfold_bounds; lia).
  replace (Z.to_nat (n (obj m) - 1)) with (pred (Z.to_nat (n (obj m))))
    by (unfold_bounds; lia).
  by rewrite shift_left_buffer_at_end.
Qed.

Lemma pop_back_is_remove_at_end_witness :
  wf (obj list_full) /\ n (obj list_full) <> 0
  /\ pop_back list_full = remove_at 1 list_full.
Proof.
  assert (Hwf : wf (obj list_full)) by in_range.
  assert (Hne : n (obj list_full) <> 0) by (cbn; lia).
  split; [exact Hwf|]. split; [exact Hne|].
  apply (pop_back_is_remove_at_end list_full Hwf Hne).
Defined.

(** X10. On a list in range, with a comparator that reports [x] equal to
    itself, [find(x)] after [push_back(x)] returns what [find(x)] returned
    before the call when that was an index, and otherwise the index [n] at
    which [x] was stored. *)
Theorem push_back_then_find (grant : nat -> Z -> bool) (junk : nat -> nat -> handle)
    (x : handle) (cmp : handle -> handle -> Z) (m : machine) :
  wf (obj m) -> cmp x x = 0 ->
  n (obj m) <> length (obj m)
  \/ grant (allocs (sys m)) (growth_request (obj m)) = true ->
  exists m' r0 r,
    push_back grant junk x m = Ret tt m'
    /\ find x cmp m = Ret r0 m
    /\ find x cmp m' = Ret r m'
    /\ r = (if r0 =? -1 then n (obj m) else r0)
    /\ 0 <= r <= n (obj m).
Proof.
  intros Hwf Hrefl Hg.
  destruct (push_back_ok grant junk x m Hwf Hg)
    as (m' & E & Hn' & Hel' & Hlen' & Hbuf' & _).
  assert (Hgrown : n (obj m) < grown_length (obj m)
                   /\ grown_length (obj m) + 1 <= PTRDIFF_MAX).
  { unfold grown_length. unfold_bounds.
    destruct (Z.eqb_spec (n (obj m)) (length (obj m))); lia. }
  assert (Hlen : List.length (elements (obj m)) = Z.to_nat (n (obj m))).
  { apply length_elements. unfold_bounds. lia. }
  exists m', (found (index_of cmp x (elements (obj m)))),
    (found (index_of cmp x (elements (obj m')))).
  split; [done|]. split; [apply find_elements; unfold_bounds; lia|].
  split; [apply find_elements; unfold terminated_buffer in Hbuf'; unfold_bounds; lia|].
  rewrite Hel', index_of_app. cbn [index_of]. rewrite Hrefl. cbn.
  destruct (index_of cmp x (elements (obj m))) as [i|] eqn:Ei; cbn.
  - apply index_of_Some in Ei as [(v & Hv & _) _]. apply lookup_lt_Some in Hv.
    destruct (Z.eqb_spec (Z.of_nat i) (-1)) as [?|_]; lia.
  - rewrite Hlen. unfold_bounds. lia.
Qed.

Lemma push_back_then_find_witness :
  wf (obj list_full) /\ Z.sub 77 77 = 0
  /\ exists m', push_back grant_all junk_pattern 77 list_full = Ret tt m'
       /\ find 77 Z.sub m' = Ret 2 m'.
Proof.
  assert (Hwf : wf (obj list_full)) by in_range.
  split; [exact Hwf|]. split; [reflexivity|].
  destruct (push_back_then_find grant_all junk_pattern 77 Z.sub list_full Hwf eq_refl)
    as (m' & r0 & r & E & E0 & Er & Hr & _); [right; reflexivity|].
  exists m'. split; [exact E|]. rewrite Er. f_equal.
  vm_compute in E0. injection E0 as <-. exact Hr.
Defined.

(** X11. Erasing by value.  On a list in range, if [find(x)] returns an
    index [r], then [remove_at(r)] returns with that element removed and the
    others in their order, and a second [find(x)] returns -1 exactly when no
    element behind position [r] compared equal to [x]; otherwise it returns an
    index that is not below [r]. *)
Theorem find_then_remove_at (x : handle) (cmp : handle -> handle -> Z)
    (r : Z) (m : machine) :
  wf (obj m) -> find x cmp m = Ret r m -> 0 <= r ->
  exists m' r',
    remove_at r m = Ret tt m'
    /\ n (obj m') = n (obj m) - 1
    /\ elements (obj m') =
       take (Z.to_nat r) (elements (obj m)) ++ drop (S (Z.to_nat r)) (elements (obj m))
    /\ find x cmp m' = Ret r' m'
    /\ (r' = -1 \/ r <= r')
    /\ (r' = -1 <->
        forall j v, drop (S (Z.to_nat r)) (elements (obj m)) !! j = Some v -> cmp v x <> 0).
Proof.
  intros Hwf Hfind Hr.
  rewrite find_elements in Hfind by (unfold_bounds; lia).
  injection Hfind as Hfind.
  destruct (index_of cmp x (elements (obj m))) as [i|] eqn:Ei; cbn in Hfind; [|lia].
  subst r. rewrite Nat2Z.id.
  destruct (index_of_Some cmp x _ i Ei) as [(v & Hv & _) Hnone].
  apply lookup_lt_Some in Hv.
  rewrite length_elements in Hv by (unfold_bounds; lia).
  destruct (remove_at_fits (Z.of_nat i) m)
    as (m' & E & Hn' & Hel' & Hlen' & Hbuf' & _); [unfold_bounds; lia..|].
  rewrite Nat2Z.id in Hel'.
  exists m', (found (index_of cmp x (elements (obj m')))).
  split; [done|]. split; [done|]. split; [done|].
  split; [apply find_elements; unfold terminated_buffer in Hbuf'; unfold_bounds; lia|].
  rewrite Hel', index_of_app, Hnone.
  rewrite length_take, length_elements by (unfold_bounds; lia).
  destruct (index_of cmp x (drop (S i) (elements (obj m)))) as [k|] eqn:Ek; cbn.
  - split; [right; lia|]. split; [lia|]. intros Hall. exfalso.
    apply index_of_Some in Ek as [(w & Hw & Hc) _]. by apply (Hall k w).
  - split; [by left|]. split; [|done]. intros _. by apply index_of_None.
Qed.

Lemma find_then_remove_at_witness :
  wf (obj list_with_room) /\ find 20 Z.sub list_with_room = Ret 1 list_with_room
  /\ exists m', remove_at 1 list_with_room = Ret tt m'
       /\ elements (obj m') = [10; 30]
       /\ find 20 Z.sub m' = Ret (-1) m'.
Proof.
  assert (Hwf : wf (obj list_with_room)) by in_range.
  assert (Hfind : find 20 Z.sub list_with_room = Ret 1 list_with_room) by reflexivity.
  split; [exact Hwf|]. split; [exact Hfind|].
  destruct (find_then_remove_at 20 Z.sub 1 list_with_room Hwf Hfind)
    as (m' & r' & E & _ & Hel & Er & _ & Hiff); [lia|].
  exists m'. split; [exact E|]. split; [rewrite Hel; reflexivity|].
  rewrite Er. f_equal. apply Hiff.
  intros [|[|j]] v Hv; vm_compute in Hv; [|discriminate..].
  injection Hv as <-. discriminate.
Defined.

(** ** The cost of growing *)

Section Geometric.

Variable grant : nat -> Z -> bool.
Variable junk : nat -> nat -> handle.
Hypothesis grant_bounded : bounded grant.

(** One [push_back] on a list in range: the capacity is the grown one, and
    the allocator is asked exactly when the list was full. *)
Lemma push_back_step (x : handle) (m m' : machine) :
  wf (obj m) -> push_back grant junk x m = Ret tt m' ->
  wf (obj m')
  /\ n (obj m') = n (obj m) + 1
  /\ length (obj m') = grown_length (obj m)
  /\ allocs (sys m') = (if n (obj m) =? length (obj m)
                        then S (allocs (sys m)) else allocs (sys m)).
Proof.
  intros Hwf E.
  destruct (push_back_wf grant junk x m m' grant_bounded Hwf E) as (Hwf' & _ & Hn' & _).
  assert (Hlen : length (obj m') = grown_length (obj m)).
  { destruct (decide (starved grant m)) as [Hs|Hs].
    - destruct (push_back_starved grant junk x m Hwf Hs) as (m1 & E1 & _). congruence.
    - destruct (push_back_ok grant junk x m Hwf) as (m1 & E1 & _ & _ & Hlen & _).
      { unfold starved in Hs.
        destruct (decide (n (obj m) = length (obj m))); [|by left].
        right. destruct (grant _ _); [done|]. exfalso. by apply Hs. }
      congruence. }
  split; [done|]. split; [done|]. split; [done|].
  apply push_back_keeps in E as (_ & _ & [(Hal & Hsame & _)|[Hfull Hal]]).
  - rewrite Hlen in Hsame. unfold grown_length in Hsame. unfold_bounds.
    destruct (Z.eqb_spec (n (obj m)) (length (obj m))); [lia|done].
  - by rewrite (proj2 (Z.eqb_eq _ _) Hfull).
Qed.

Lemma push_all_geometric (xs : list handle) : forall (m m' : machine) (j : nat),
  wf (obj m) ->
  length (obj m) + 1 = 2 ^ Z.of_nat j ->
  length (obj m) <= 2 * n (obj m) ->
  push_all grant junk xs m = Ret tt m' ->
  exists j' : nat,
    length (obj m') + 1 = 2 ^ Z.of_nat (j + j')
    /\ allocs (sys m') = (allocs (sys m) + j')%nat
    /\ length (obj m') <= 2 * n (obj m')
    /\ n (obj m') = n (obj m) + Z.of_nat (List.length xs).
Proof.
  induction xs as [|x xs IH]; intros m m' j Hwf Hpow Hslack E.
  - injection E as <-. exists 0%nat. rewrite !Nat.add_0_r. cbn [List.length].
    repeat split; try done. lia.
  - cbn [push_all] in E. apply bind_ret_inv in E as ([] & m1 & E1 & E).
    destruct (push_back_step x m m1 Hwf E1) as (Hwf1 & Hn1 & Hlen1 & Hal1).
    unfold grown_length in Hlen1.
    destruct (Z.eqb_spec (n (obj m)) (length (obj m))) as [Hfull|Hroom].
    + destruct (IH m1 m' (S j) Hwf1) as (j' & Hpow' & Hal' & Hslack' & Hn'); [| |done|].
      { rewrite Hlen1, Nat2Z.inj_succ, Z.pow_succ_r by lia. lia. }
      { lia. }
      exists (S j'). rewrite Hal', Hal1, Hn', Hn1. cbn [List.length].
      replace (j + S j')%nat with (S j + j')%nat by lia.
      repeat split; try done; lia.
    + destruct (IH m1 m' j Hwf1) as (j' & Hpow' & Hal' & Hslack' & Hn'); [| |done|].
      { by rewrite Hlen1. }
      { unfold_bounds. lia. }
      exists j'. rewrite Hal', Hal1, Hn', Hn1. cbn [List.length].
      repeat split; try done; lia.
Qed.

End Geometric.

(** X9. Growth is geometric.  With an allocator that hands out no block
    above [PTRDIFF_MAX] bytes, when a program creates a list of capacity 0
    and pushes any number of elements and returns, the capacity plus one is a
    power of two [2^j], the capacity is at most twice the count, and the
    allocator was asked exactly [2 + j] times: twice by [init] and once per
    doubling, however many elements were pushed. *)
Theorem growth_is_geometric (grant : nat -> Z -> bool) (junk : nat -> nat -> handle)
    (xs : list handle) (e e' : env) (l : ArrayList) :
  bounded grant ->
  program grant 0 (push_all grant junk xs) e = Ret l e' ->
  exists j : nat,
    length l + 1 = 2 ^ Z.of_nat j
    /\ n l = Z.of_nat (List.length xs)
    /\ n l <= length l <= 2 * n l
    /\ allocs e' = (allocs e + 2 + j)%nat.
Proof.
  intros Hb. unfold program, bind.
  destruct (init grant 0 e) as [l0 e0| |] eqn:Einit; [|discriminate..].
  destruct (init_wf grant 0 e e0 l0 Hb) as (Hwf0 & _ & Hn0 & Hl0); [in_range | done |].
  assert (Hal0 : allocs e0 = S (S (allocs e))).
  { revert Einit. rewrite init_eq by in_range. cbv zeta.
    destruct (grant (allocs e) sizeof_ArrayList); [|discriminate].
    change (0 =? SIZE_MAX) with false.
    change (SIZE_MAX <? (0 + 1) * sizeof_ptr) with false. cbv iota.
    destruct (grant (S (allocs e)) _); [|discriminate]. by intros [= _ <-]. }
  destruct (push_all grant junk xs (mkMachine l0 e0)) as [[] m'| |] eqn:E; [|discriminate..].
  intros [= <- <-].
  destruct (push_all_geometric grant junk Hb xs (mkMachine l0 e0) m' 0 Hwf0)
    as (j & Hpow & Hal & Hslack & Hn); [cbn; lia | cbn; lia | done |].
  pose proof (push_all_outcome grant junk xs (mkMachine l0 e0) Hb Hwf0) as Hout.
  rewrite E in Hout. destruct Hout as (Hwf' & _).
  cbn in Hal, Hn. exists j. rewrite Hn, Hn0, Hal, Hal0.
  unfold_bounds. repeat split; try done; lia.
Qed.

Lemma growth_is_geometric_witness :
  bounded grant_all
  /\ program grant_all 0 (push_all grant_all junk_pattern [1; 2; 3; 4]) env0
     = Ret (mkArrayList [1; 2; 3; 4; NULL; 3735928559; 3735928559; 3735928559] 4 7)
           (mkEnv [] 5)
  /\ exists j : nat, 7 + 1 = 2 ^ Z.of_nat j /\ 5%nat = (0 + 2 + j)%nat.
Proof.
  split; [exact grant_all_bounded|].
  assert (E : program grant_all 0 (push_all grant_all junk_pattern [1; 2; 3; 4]) env0
              = Ret (mkArrayList [1; 2; 3; 4; NULL; 3735928559; 3735928559; 3735928559] 4 7)
                    (mkEnv [] 5)) by reflexivity.
  split; [exact E|].
  destruct (growth_is_geometric grant_all junk_pattern [1; 2; 3; 4] env0 _ _
              grant_all_bounded E) as (j & Hpow & _ & _ & Hal).
  exists j. split; [exact Hpow | exact Hal].
Defined.

(** ** The demonstration program *)

